(** * chplvis: the DataModel query surface (tools/chplvis/DataModel.h)

    A shallow embedding of the structures and inline member functions of
    [DataModel.h].  C++ objects are records, raw arrays are lists behind a
    pointer that may be null or indeterminate, and every operation that
    C++ leaves undefined (null or out-of-range indexing, signed overflow,
    reading an uninitialised member, deleting twice) is a [Fault] of the
    [result] type, so that "never performs a bad access" is a statement
    about the value a function returns.  The load itself, whose body is
    in DataModel.cxx, is written from the specification and marked so. *)

From Stdlib Require Import ZArith Lia.
From stdpp Require Import gmap strings list sorting.

Local Open Scope Z_scope.
#[local] Set Default Proof Using "Type".

(** ** Machine integers

    [int] is 32 bits on the platforms chplvis is built for; integer
    values are kept in [Z] and the [int] range is written out where the
    code computes in [int]. *)

Definition INT_MIN : Z := - 2 ^ 31.
Definition INT_MAX : Z := 2 ^ 31 - 1.

(** [(int) u] for an unsigned [u] (a [size_t] here): reduction modulo
    2^32 into the signed range, as every compiler chplvis supports does. *)
Definition to_int (u : Z) : Z := (u + 2 ^ 31) mod 2 ^ 32 - 2 ^ 31.

(** ** Results of running member functions *)

Inductive fault : Set :=
| NullDeref        (* indexing or dereferencing a null pointer *)
| WildDeref        (* indexing through an indeterminate pointer *)
| OutOfBounds      (* index outside the allocated array *)
| EndDeref         (* dereferencing the end() iterator of a list *)
| Overflow         (* signed integer overflow *)
| Indeterminate    (* reading a member the constructor left unset *)
| BadArrayNew      (* new T[n] with a negative n *)
| InvalidDelete    (* delete of an object that is not live *)
| Diverges.        (* the loop does not terminate *)

Inductive result (A : Type) : Type :=
| Ret (a : A)
| Fault (f : fault).
Arguments Ret {A} a.
Arguments Fault {A} f.

Definition bind {A B} (r : result A) (k : A -> result B) : result B :=
  match r with
  | Ret a => k a
  | Fault f => Fault f
  end.

Notation "x <- r ;; k" := (bind r (fun x => k))
  (at level 100, r at next level, right associativity).

(** Signed [int] arithmetic: overflow is undefined behaviour. *)
Definition int_add (a b : Z) : result Z :=
  if decide (INT_MIN <= a + b <= INT_MAX) then Ret (a + b) else Fault Overflow.
Definition int_sub (a b : Z) : result Z :=
  if decide (INT_MIN <= a - b <= INT_MAX) then Ret (a - b) else Fault Overflow.

(** ** Pointers

    [aptr A] is a pointer to the first element of a [new A[n]] array;
    [Wild] is the value of a pointer member that no constructor has set.
    [ptr] is a pointer to a single heap object, identified by its address. *)

Inductive aptr (A : Type) : Type :=
| Wild
| Null
| Arr (elems : list A).
Arguments Wild {A}.
Arguments Null {A}.
Arguments Arr {A} elems.

Inductive ptr : Set :=
| NULL
| Addr (a : positive).

Global Instance ptr_eq_dec : EqDecision ptr.
Proof. solve_decision. Defined.

(** [p[i]] as an rvalue. *)
Definition index {A} (p : aptr A) (i : Z) : result A :=
  match p with
  | Wild => Fault WildDeref
  | Null => Fault NullDeref
  | Arr l =>
      if decide (0 <= i) then
        match l !! Z.to_nat i with
        | Some a => Ret a
        | None => Fault OutOfBounds
        end
      else Fault OutOfBounds
  end.

(** [p[i] = a]. *)
Definition store {A} (p : aptr A) (i : Z) (a : A) : result (aptr A) :=
  match p with
  | Wild => Fault WildDeref
  | Null => Fault NullDeref
  | Arr l =>
      if decide (0 <= i < Z.of_nat (length l))
      then Ret (Arr (<[Z.to_nat i := a]> l))
      else Fault OutOfBounds
  end.

(** [new A[n]], each element built by the default constructor [ctor]. *)
Definition new_array {A} (ctor : A) (n : Z) : result (aptr A) :=
  if decide (0 <= n) then Ret (Arr (replicate (Z.to_nat n) ctor))
  else Fault BadArrayNew.

(** A member that a constructor may leave unset. *)
Inductive cell (A : Type) : Type :=
| Unset
| Val (a : A).
Arguments Unset {A}.
Arguments Val {A} a.

Definition read {A} (c : cell A) : result A :=
  match c with
  | Unset => Fault Indeterminate
  | Val a => Ret a
  end.

Section Model.

(** [double] values are only stored, returned and compared by the code
    modelled here; [dzero] is the literal 0.  [Event] is the class of
    Event.h, of which this header uses [clock_time()] alone. *)
Context {double : Type} (dzero : double).
Context {Event : Type} (clock_time : Event -> double).

(** ** Support structs *)

Record commData : Type := mk_commData {
  numComms : Z;
  numGets : Z;
  numPuts : Z;
  numForks : Z;
  commSize : Z
}.

Definition commData_ctor : commData :=
  {| numComms := 0; numGets := 0; numPuts := 0; numForks := 0; commSize := 0 |}.

Record taskData : Type := mk_taskData {
  taskRec : option Event;
  beginRec : option Event;
  endRec : option Event;
  endTagNo : Z;
  taskClock : cell double;
  commList : list Event;
  commSum : commData
}.

Definition taskData_ctor : taskData :=
  {| taskRec := None; beginRec := None; endRec := None; endTagNo := -2;
     taskClock := Unset; commList := []; commSum := commData_ctor |}.

Record localeData : Type := mk_localeData {
  userCpu : double;
  sysCpu : double;
  Cpu : double;
  refUserCpu : double;
  refSysCpu : double;
  clockTime : double;
  refTime : double;
  maxTaskClock : double;
  numTasks : Z;
  runConc : Z;
  maxConc : Z;
  tasks : gmap Z taskData
}.

Definition localeData_ctor : localeData :=
  {| userCpu := dzero; sysCpu := dzero; Cpu := dzero; refUserCpu := dzero;
     refSysCpu := dzero; clockTime := dzero; refTime := dzero;
     maxTaskClock := dzero; numTasks := 0; runConc := 0; maxConc := 0;
     tasks := ∅ |}.

Record filename : Type := mk_filename {
  name : string;
  rel2Home : bool
}.

(** ** DataModel::tagData

    [firstTag], the private iterator into the event list, is a position
    in that list; the constructor leaves it unset. *)

Record tagData : Type := mk_tagData {
  td_numLocales : Z;
  td_name : string;
  locales : aptr localeData;
  comms : aptr (aptr commData);
  maxCpu : double;
  maxClock : double;
  maxTasks : Z;
  td_maxConc : Z;
  maxComms : Z;
  maxSize : Z;
  firstTag : cell nat
}.

(** The loop [for (int i = 0; i < numLocales; i++) comms[i] = new
    commData[numLocales];] entered with the given [i].  [fuel] bounds the
    number of iterations the model follows. *)
Fixpoint tagData_rows (fuel : nat) (numLocales i : Z)
    (comms : aptr (aptr commData)) : result (aptr (aptr commData)) :=
  if decide (i < numLocales) then
    match fuel with
    | O => Fault Diverges
    | S fuel' =>
        row <- new_array commData_ctor numLocales ;;
        comms' <- store comms i row ;;
        i' <- int_add i 1 ;;
        tagData_rows fuel' numLocales i' comms'
    end
  else Ret comms.

Definition tagData_ctor (numLoc : Z) : result tagData :=
  let numLocales := numLoc in
  locales <- new_array localeData_ctor numLocales ;;
  comms <- new_array Wild numLocales ;;
  comms <- tagData_rows (Z.to_nat numLocales) numLocales 0 comms ;;
  Ret {| td_numLocales := numLocales; td_name := ""; locales := locales;
         comms := comms; maxCpu := dzero; maxClock := dzero; maxTasks := 0;
         td_maxConc := 0; maxComms := 0; maxSize := 0; firstTag := Unset |}.

(** [delete [] p]: nothing to release for a null pointer; an
    indeterminate one cannot be deleted. *)
Definition delete_array {A} (p : aptr A) : result unit :=
  match p with
  | Wild => Fault WildDeref
  | _ => Ret tt
  end.

(** The loop of [~tagData]: [delete [] comms[i]; comms[i] = NULL;] for
    [i] from the given value up to [numLocales]. *)
Fixpoint tagData_free_rows (fuel : nat) (numLocales i : Z)
    (comms : aptr (aptr commData)) : result (aptr (aptr commData)) :=
  if decide (i < numLocales) then
    match fuel with
    | O => Fault Diverges
    | S fuel' =>
        row <- index comms i ;;
        _ <- delete_array row ;;
        comms' <- store comms i Null ;;
        i' <- int_add i 1 ;;
        tagData_free_rows fuel' numLocales i' comms'
    end
  else Ret comms.

Definition tagData_dtor (td : tagData) : result unit :=
  _ <- delete_array (locales td) ;;
  comms <- tagData_free_rows (Z.to_nat (td_numLocales td))
             (td_numLocales td) 0 (comms td) ;;
  delete_array comms.

(** ** DataModel *)

Inductive Tl_Kind : Set := Tl_Tag | Tl_Begin | Tl_End.
Definition timelineEntry : Type := Tl_Kind * Z.

Record funcname : Type := mk_funcname {
  fn_name : string;
  fileNo : Z;
  lineNo : Z;
  func_events : list Event;
  noOnTasks : Z;
  noTasks : Z;
  noGets : Z;
  noPuts : Z
}.

(** The members of the class, in declaration order.  [strDB], the string
    cache of StringCache.h, is not touched by any inline member; names
    that point into it are kept as the strings they point to.  The list
    [theEvents] holds pointers to events the model owns, kept here as the
    events themselves, and [curEvent] is a position in it. *)
Record DataModel : Type := mk_DataModel {
  taskTimeline : aptr (list timelineEntry);
  mainTID : cell Z;
  mainTask : taskData;
  fileTbl : aptr filename;
  fileTblSize : cell Z;
  funcTbl : aptr funcname;
  funcTblSize : cell Z;
  tagNames : list (option string);
  numLocales : Z;
  numTags : Z;
  tagList : aptr ptr;
  uniqueTags : bool;
  name2tag : gmap string Z;
  utagList : aptr ptr;
  theEvents : list Event;
  curEvent : nat
}.

Definition TagALL : Z := -2.
Definition TagStart : Z := -1.

Definition hasUniqueTags (m : DataModel) : bool := uniqueTags m.

Definition NumTags (m : DataModel) : Z := numTags m.

Definition NumUTags (m : DataModel) : Z :=
  to_int (Z.of_nat (size (name2tag m))).

Definition getTagData (m : DataModel) (tagno : Z) : result ptr :=
  if (tagno <? TagALL) || (tagno >=? numTags m) then Ret NULL
  else
    i <- int_sub tagno TagALL ;;
    index (tagList m) i.

Definition getUTagData (m : DataModel) (tagno : Z) : result ptr :=
  if tagno =? TagALL then index (tagList m) 0
  else if tagno =? TagStart then index (tagList m) 1
  else if uniqueTags m
          || (tagno >=? to_int (Z.of_nat (size (name2tag m))))
          || (tagno <? 0)
  then Ret NULL
  else index (utagList m) tagno.

Definition start_clock (m : DataModel) : result double :=
  match theEvents m with
  | [] => Fault EndDeref
  | e :: _ => Ret (clock_time e)
  end.

(** [fileNo >= 0 && fileNo < fileTblSize]: the size is read only when the
    first test succeeds. *)
Definition file_in_range (m : DataModel) (fileNo : Z) : result bool :=
  if fileNo >=? 0 then
    sz <- read (fileTblSize m) ;;
    Ret (fileNo <? sz)
  else Ret false.

Definition fileName (m : DataModel) (fileNo : Z) : result string :=
  ok <- file_in_range m fileNo ;;
  if ok : bool then
    f <- index (fileTbl m) fileNo ;;
    Ret (name f)
  else Ret "<unknown>"%string.

Definition fileIsRel2Home (m : DataModel) (fileNo : Z) : result bool :=
  ok <- file_in_range m fileNo ;;
  if ok : bool then
    f <- index (fileTbl m) fileNo ;;
    Ret (rel2Home f)
  else Ret false.

Definition NumLocales (m : DataModel) : Z := numLocales m.

(** The constructor assigns seven members and sizes [tagNames];
    [mainTask] is default constructed, the two tables, their sizes and
    [mainTID] stay unset. *)
Definition DataModel_ctor : DataModel :=
  {| taskTimeline := Null;
     mainTID := Unset;
     mainTask := taskData_ctor;
     fileTbl := Wild;
     fileTblSize := Unset;
     funcTbl := Wild;
     funcTblSize := Unset;
     tagNames := replicate 64 None;
     numLocales := -1;
     numTags := 0;
     tagList := Null;
     uniqueTags := true;
     name2tag := ∅;
     utagList := Null;
     theEvents := [];
     curEvent := 0%nat |}.

(** ** The free store and the destructor

    The [tagData] objects created with [new] live in a store keyed by
    address; [delete p] runs the object's destructor and retires the
    address. *)

Definition delete_ptr (h : gmap positive tagData) (p : ptr)
    : result (gmap positive tagData) :=
  match p with
  | NULL => Ret h
  | Addr a =>
      match h !! a with
      | None => Fault InvalidDelete
      | Some td =>
          _ <- tagData_dtor td ;;
          Ret (delete a h)
      end
  end.

(** [p != NULL]. *)
Definition not_null {A} (p : aptr A) : result bool :=
  match p with
  | Wild => Fault Indeterminate
  | Null => Ret false
  | Arr _ => Ret true
  end.

(** [for (int ix = 0; ix < numTags + 2; ix++) delete tagList[ix];]
    entered with the given [ix]. *)
Fixpoint dtor_tags (fuel : nat) (m : DataModel) (ix : Z)
    (h : gmap positive tagData) : result (gmap positive tagData) :=
  bound <- int_add (numTags m) 2 ;;
  if decide (ix < bound) then
    match fuel with
    | O => Fault Diverges
    | S fuel' =>
        p <- index (tagList m) ix ;;
        h' <- delete_ptr h p ;;
        ix' <- int_add ix 1 ;;
        dtor_tags fuel' m ix' h'
    end
  else Ret h.

(** [for (unsigned int ix = 0; ix < name2tag.size(); ix++) delete
    utagList[ix];] entered with the given [ix]; the unsigned counter
    wraps. *)
Fixpoint dtor_utags (fuel : nat) (m : DataModel) (ix : Z)
    (h : gmap positive tagData) : result (gmap positive tagData) :=
  if decide (ix < Z.of_nat (size (name2tag m))) then
    match fuel with
    | O => Fault Diverges
    | S fuel' =>
        p <- index (utagList m) ix ;;
        h' <- delete_ptr h p ;;
        dtor_utags fuel' m ((ix + 1) mod 2 ^ 32) h'
    end
  else Ret h.

Definition DataModel_dtor (m : DataModel) (h : gmap positive tagData)
    : result (gmap positive tagData) :=
  t <- not_null (tagList m) ;;
  h <- (if t : bool then
          h <- dtor_tags (Z.to_nat (numTags m + 2)) m 0 h ;;
          _ <- delete_array (tagList m) ;;
          Ret h
        else Ret h) ;;
  t <- not_null (taskTimeline m) ;;
  _ <- (if t : bool then delete_array (taskTimeline m) else Ret tt) ;;
  t <- not_null (utagList m) ;;
  if t : bool then
    h <- dtor_utags (size (name2tag m)) m 0 h ;;
    _ <- delete_array (utagList m) ;;
    Ret h
  else Ret h.

(** ** The load

    [LoadData] and [LoadFile] are declared in the header and defined in
    DataModel.cxx, outside the header followed so far.  What comes next
    is written from the specification's description of a load. *)

(** Modelled from the spec: the fields every decoded event carries
    besides its clock time, a locale id and a per-locale sequence number
    (Event.h is missing), and the comparison [<] of clock times. *)
Context (nodeId : Event -> Z) (seqNo : Event -> Z).
Context (dlt : double -> double -> bool).

(** Modelled from the spec: the Phase Segmenter's walk over the merged
    list (in the missing DataModel.cxx), of which only the outcome is
    needed here: the names of the tags it opened, in tag order, or nothing
    when an event refers to a tag that was never opened. *)
Context (discover_tags : list Event -> option (list string)).

(** Modelled from the spec: the Name Registry's tables of source files
    and functions (filled in the missing DataModel.cxx), as found in the
    merged list, and its verdict on the tag names: whether folding stays
    in effect, and the map from names to tags. *)
Context (name_tables : list Event -> list filename * list funcname).
Context (register_tags : list string -> bool * gmap string Z).

(** Modelled from the spec: the order of the merged list of the Stream
    Merger (missing DataModel.cxx), "primarily by clock time and, for
    equal clock times, by locale id then by local sequence number". *)
Definition event_le (a b : Event) : bool :=
  dlt (clock_time a) (clock_time b)
  || (negb (dlt (clock_time b) (clock_time a))
      && ((nodeId a <? nodeId b)
          || ((nodeId a =? nodeId b) && (seqNo a <=? seqNo b)))).

(** Modelled from the spec: one record of a stream is put at its place
    in the global list (Stream Merger, missing DataModel.cxx). *)
Fixpoint insert_event (e : Event) (l : list Event) : list Event :=
  match l with
  | [] => [e]
  | x :: l' => if event_le e x then e :: x :: l' else x :: insert_event e l'
  end.

(** Modelled from the spec: the merged list of a sequence of records
    processed one by one (Stream Merger, missing DataModel.cxx). *)
Definition merge_events (records : list Event) (acc : list Event)
    : list Event :=
  foldl (fun l e => insert_event e l) acc records.

(** Modelled from the spec: the error taxonomy of a load (section 7). *)
Inductive LoadError : Set :=
| MissingFile
| InconsistentLocaleCount
| MalformedRecord
| UnknownTagReference.

(** Modelled from the spec: a trace file [<base>-<N>] as the Event
    Decoder presents it (the decoder and LoadFile are missing): the locale
    count the run recorded and one decoded record per line, [None] for a
    line that fails to decode. *)
Record TraceFile : Type := mk_TraceFile {
  tf_numLocales : Z;
  tf_records : list (option Event)
}.

(** Modelled from the spec: streaming one file into the global list
    (LoadFile, missing DataModel.cxx).  A malformed line or a record of a
    locale outside the discovered set aborts. *)
Fixpoint ingest_records (n : Z) (recs : list (option Event))
    (acc : list Event) : LoadError + list Event :=
  match recs with
  | [] => inr acc
  | None :: _ => inl MalformedRecord
  | Some e :: rest =>
      if (0 <=? nodeId e) && (nodeId e <? n)
      then ingest_records n rest (insert_event e acc)
      else inl InconsistentLocaleCount
  end.

(** Modelled from the spec: the files [<base>-0 .. <base>-(n-1)] are read
    in turn (LoadData, missing DataModel.cxx); [files] maps an index to the
    file of that name when there is one. *)
Fixpoint ingest_files (n : Z) (idxs : list Z) (files : gmap Z TraceFile)
    (acc : list Event) : LoadError + list Event :=
  match idxs with
  | [] => inr acc
  | i :: idxs' =>
      match files !! i with
      | None => inl MissingFile
      | Some f =>
          if tf_numLocales f =? n then
            match ingest_records n (tf_records f) acc with
            | inl err => inl err
            | inr acc' => ingest_files n idxs' files acc'
            end
          else inl InconsistentLocaleCount
      end
  end.

(** Modelled from the spec: the Stream Merger as a whole (missing
    DataModel.cxx): the locale count comes from file 0, every index below
    it must be present. *)
Definition load_events (files : gmap Z TraceFile)
    : LoadError + (Z * list Event) :=
  match files !! 0 with
  | None => inl MissingFile
  | Some f0 =>
      let n := tf_numLocales f0 in
      match ingest_files n (seqZ 0 n) files [] with
      | inl err => inl err
      | inr evs => inr (n, evs)
      end
  end.

(** Modelled from the spec: [new tagData(numLocales)] at a fresh address
    of the store, done [k] times, as the load does for the entries of its
    tag arrays (missing DataModel.cxx). *)
Fixpoint new_tags (k : nat) (numLoc : Z) (h : gmap positive tagData)
    : result (list ptr * gmap positive tagData) :=
  match k with
  | O => Ret ([], h)
  | S k' =>
      td <- tagData_ctor numLoc ;;
      let a := fresh (dom h) in
      r <- new_tags k' numLoc (<[a := td]> h) ;;
      Ret (Addr a :: r.1, r.2)
  end.

(** Modelled from the spec: [DataModel::LoadData] (body in the missing
    DataModel.cxx).  A load either fails, and then returns 0 and keeps
    nothing, or builds the whole model: the merged events, one entry for
    TagALL, one for TagStart and one per tag, each over all locales, and,
    when folding is disabled, the secondary list with the number of
    entries the destructor frees.  The statistics the Aggregator folds
    into the entries and the timelines are not modelled: entries and
    timelines are left as they are created. *)
Definition LoadData (m : DataModel) (h : gmap positive tagData)
    (files : gmap Z TraceFile)
    : Z * DataModel * gmap positive tagData :=
  match load_events files with
  | inl _ => (0, m, h)
  | inr (n, evs) =>
      match discover_tags evs with
      | None => (0, m, h)
      | Some names =>
          let nt := Z.of_nat (length names) in
          let reg := register_tags names in
          match new_tags (length names + 2) n h with
          | Fault _ => (0, m, h)
          | Ret (tl, h1) =>
              match (if reg.1 then Ret ([], h1)
                     else new_tags (size reg.2) n h1) with
              | Fault _ => (0, m, h)
              | Ret (ul, h2) =>
                  (1,
                   {| taskTimeline := Arr (replicate (Z.to_nat n) []);
                      mainTID := mainTID m;
                      mainTask := mainTask m;
                      fileTbl := Arr (name_tables evs).1;
                      fileTblSize :=
                        Val (Z.of_nat (length (name_tables evs).1));
                      funcTbl := Arr (name_tables evs).2;
                      funcTblSize :=
                        Val (Z.of_nat (length (name_tables evs).2));
                      tagNames := Some <$> names;
                      numLocales := n;
                      numTags := nt;
                      tagList := Arr tl;
                      uniqueTags := reg.1;
                      name2tag := reg.2;
                      utagList := if reg.1 then Null else Arr ul;
                      theEvents := evs;
                      curEvent := 0%nat |},
                   h2)
              end
          end
      end
  end.

(** ** States of the model used in the statements *)

(** The shape the header documents for the tag array ("Includes entries
    for -2 (TagAll), and -1 (TagStart->0), size is numTags+2"), with a tag
    count for which the destructor's [numTags + 2] is an [int]. *)
Definition tagList_sized (m : DataModel) (l : list ptr) : Prop :=
  tagList m = Arr l
  /\ 0 <= numTags m
  /\ numTags m + 2 <= INT_MAX
  /\ Z.of_nat (length l) = numTags m + 2.

(** The secondary list holds one entry per key of [name2tag], as the
    destructor's second loop takes it to, and their number is an [int]. *)
Definition utagList_sized (m : DataModel) (l : list ptr) : Prop :=
  utagList m = Arr l
  /\ length l = size (name2tag m)
  /\ Z.of_nat (size (name2tag m)) <= INT_MAX.

(** The same model with another tag array. *)
Definition with_tagList (m : DataModel) (tl : aptr ptr) : DataModel :=
  {| taskTimeline := taskTimeline m; mainTID := mainTID m;
     mainTask := mainTask m; fileTbl := fileTbl m;
     fileTblSize := fileTblSize m; funcTbl := funcTbl m;
     funcTblSize := funcTblSize m; tagNames := tagNames m;
     numLocales := numLocales m; numTags := numTags m;
     tagList := tl;
     uniqueTags := uniqueTags m; name2tag := name2tag m;
     utagList := utagList m; theEvents := theEvents m;
     curEvent := curEvent m |}.

(** The same model with another secondary list. *)
Definition with_utagList (m : DataModel) (ul : aptr ptr) : DataModel :=
  {| taskTimeline := taskTimeline m; mainTID := mainTID m;
     mainTask := mainTask m; fileTbl := fileTbl m;
     fileTblSize := fileTblSize m; funcTbl := funcTbl m;
     funcTblSize := funcTblSize m; tagNames := tagNames m;
     numLocales := numLocales m; numTags := numTags m;
     tagList := tagList m;
     uniqueTags := uniqueTags m; name2tag := name2tag m;
     utagList := ul; theEvents := theEvents m;
     curEvent := curEvent m |}.

(** The same model with other unique-tag members altogether. *)
Definition with_folding (m : DataModel) (u : bool) (n2t : gmap string Z)
    (ul : aptr ptr) : DataModel :=
  {| taskTimeline := taskTimeline m; mainTID := mainTID m;
     mainTask := mainTask m; fileTbl := fileTbl m;
     fileTblSize := fileTblSize m; funcTbl := funcTbl m;
     funcTblSize := funcTblSize m; tagNames := tagNames m;
     numLocales := numLocales m; numTags := numTags m;
     tagList := tagList m;
     uniqueTags := u; name2tag := n2t;
     utagList := ul; theEvents := theEvents m;
     curEvent := curEvent m |}.

(** A model whose members other than those listed are as the constructor
    leaves them. *)
Definition model_of (nl nt : Z) (tl : aptr ptr) (u : bool)
    (n2t : gmap string Z) (ul : aptr ptr) (evs : list Event)
    (ft : aptr filename) (fts : cell Z) : DataModel :=
  {| taskTimeline := taskTimeline DataModel_ctor;
     mainTID := mainTID DataModel_ctor;
     mainTask := mainTask DataModel_ctor;
     fileTbl := ft;
     fileTblSize := fts;
     funcTbl := funcTbl DataModel_ctor;
     funcTblSize := funcTblSize DataModel_ctor;
     tagNames := tagNames DataModel_ctor;
     numLocales := nl;
     numTags := nt;
     tagList := tl;
     uniqueTags := u;
     name2tag := n2t;
     utagList := ul;
     theEvents := evs;
     curEvent := curEvent DataModel_ctor |}.

(** An id is addressable through [getUTagData] when what the accessor
    returns for it is the element of that index of the secondary list,
    whatever the list is. *)
Definition utag_addressable (m : DataModel) (i : Z) : Prop :=
  forall ul, getUTagData (with_utagList m ul) i = index ul i.

(** Modelled from the spec: the order of the merged list (Stream Merger,
    missing DataModel.cxx) as a relation. *)
Definition event_ord (a b : Event) : Prop := event_le a b = true.

(** Modelled from the spec: the identity a record has within a run, its
    locale and its sequence number there (Event.h is missing). *)
Definition event_key (e : Event) : Z * Z := (nodeId e, seqNo e).

(** Modelled from the spec: the records of the files of the given
    indices, in the order the load (missing DataModel.cxx) meets them. *)
Definition all_records (files : gmap Z TraceFile) (idxs : list Z)
    : list Event :=
  concat ((fun i => match files !! i with
                    | Some f => omap id (tf_records f)
                    | None => []
                    end) <$> idxs).

(** What [~tagData] needs of the entry it destroys: a [locales] pointer
    it can hand to [delete []], and a [comms] array in which each of the
    first [numLocales] rows can be handed to [delete []] in a loop whose
    [int] counter reaches [numLocales]. *)
Definition tagData_destructible (td : tagData) : Prop :=
  locales td <> Wild
  /\ (td_numLocales td <= 0 -> comms td <> Wild)
  /\ (0 < td_numLocales td ->
      td_numLocales td <= INT_MAX
      /\ exists rows,
          comms td = Arr rows
          /\ td_numLocales td <= Z.of_nat (length rows)
          /\ forall j, 0 <= j < td_numLocales td ->
               exists r, rows !! Z.to_nat j = Some r /\ r <> Wild).

(** The objects a list of pointers refers to, null pointers left out. *)
Fixpoint addrs (ps : list ptr) : list positive :=
  match ps with
  | [] => []
  | NULL :: ps' => addrs ps'
  | Addr a :: ps' => a :: addrs ps'
  end.

(** [delete] applied to the pointers of a list, from first to last. *)
Fixpoint delete_all (h : gmap positive tagData) (ps : list ptr)
    : result (gmap positive tagData) :=
  match ps with
  | [] => Ret h
  | p :: ps' =>
      h' <- delete_ptr h p ;;
      delete_all h' ps'
  end.

(** The pointers the two loops of [~DataModel] pass to [delete], in the
    order in which they do: the first [numTags + 2] of the tag array, then
    the first [name2tag.size()] of the secondary list, an array that is
    null contributing none. *)
Definition dtor_ptrs (m : DataModel) : list ptr :=
  match tagList m with
  | Arr tl => take (Z.to_nat (numTags m + 2)) tl
  | _ => []
  end
  ++ match utagList m with
     | Arr ul => take (size (name2tag m)) ul
     | _ => []
     end.

(** What [~DataModel] needs of the members it goes through: no
    indeterminate pointer among the three it tests, a tag array long
    enough for an [int] bound [numTags + 2], and a secondary list long
    enough for a number of names an [unsigned int] counter reaches. *)
Definition dtor_shape (m : DataModel) : Prop :=
  tagList m <> Wild /\ taskTimeline m <> Wild /\ utagList m <> Wild
  /\ (forall tl, tagList m = Arr tl ->
        INT_MIN <= numTags m + 2 <= INT_MAX
        /\ numTags m + 2 <= Z.of_nat (length tl))
  /\ (forall ul, utagList m = Arr ul ->
        (size (name2tag m) <= length ul)%nat
        /\ Z.of_nat (size (name2tag m)) < 2 ^ 32).

(** A small model for the instances further down: three positions in
    the tag array (the two sentinels and one tag), one in the secondary
    list, and a store with one entry over one locale for each of them and
    a fifth object the model does not own. *)
Definition sample_entry : tagData :=
  {| td_numLocales := 1; td_name := "";
     locales := Arr [localeData_ctor];
     comms := Arr [Arr [commData_ctor]];
     maxCpu := dzero; maxClock := dzero; maxTasks := 0;
     td_maxConc := 0; maxComms := 0; maxSize := 0; firstTag := Unset |}.

Definition sample_store : gmap positive tagData :=
  list_to_map [(1%positive, sample_entry); (2%positive, sample_entry);
               (3%positive, sample_entry); (4%positive, sample_entry);
               (5%positive, sample_entry)].

Definition sample_model : DataModel :=
  model_of 1 1 (Arr [Addr 1; Addr 2; Addr 3]) false
    {[ "a"%string := 0 ]} (Arr [Addr 4]) [] Wild Unset.

(** * Properties *)

(** ** Constructing a tag entry *)

Lemma bind_ret {A B} (r : result A) (k : A -> result B) (b : B) :
  bind r k = Ret b -> exists a, r = Ret a /\ k a = Ret b.
Proof. destruct r as [a|f]; simpl; [eauto | discriminate]. Qed.

Lemma insert_replicate_boundary {A} (x y : A) (a b : nat) :
  <[a := x]> (replicate a x ++ replicate (S b) y)
  = replicate (S a) x ++ replicate b y.
Proof. induction a as [|a IH]; simpl in *; [done | by f_equal]. Qed.

(** Loop invariant of the constructor: once [a] rows are in place the
    remaining [k] iterations put the others. *)
Lemma tagData_rows_fill (k : nat) : forall (fuel a : nat) (n : Z),
  (k <= fuel)%nat -> n = Z.of_nat (a + k) -> n <= INT_MAX ->
  tagData_rows fuel n (Z.of_nat a)
    (Arr (replicate a (Arr (replicate (Z.to_nat n) commData_ctor))
          ++ replicate k Wild))
  = Ret (Arr (replicate (a + k) (Arr (replicate (Z.to_nat n) commData_ctor)))).
Proof.
  induction k as [|k IH]; intros fuel a n Hfuel Hn Hmax.
  - rewrite Nat.add_0_r, app_nil_r.
    destruct fuel; cbn [tagData_rows]; by rewrite decide_False by lia.
  - destruct fuel as [|fuel]; [lia |].
    cbn [tagData_rows]. rewrite decide_True by lia.
    unfold new_array. rewrite decide_True by lia. cbn [bind].
    unfold store.
    rewrite decide_True by (rewrite length_app, !length_replicate; lia).
    cbn [bind]. unfold int_add.
    rewrite decide_True by (unfold INT_MIN, INT_MAX in *; lia).
    cbn [bind]. rewrite Nat2Z.id, insert_replicate_boundary.
    replace (Z.of_nat a + 1) with (Z.of_nat (S a)) by lia.
    rewrite (IH fuel (S a) n); [| lia | lia | done].
    do 3 f_equal. lia.
Qed.

Lemma tagData_ctor_ret (n : Z) :
  0 <= n <= INT_MAX ->
  tagData_ctor n
  = Ret {| td_numLocales := n; td_name := "";
           locales := Arr (replicate (Z.to_nat n) localeData_ctor);
           comms := Arr (replicate (Z.to_nat n)
                           (Arr (replicate (Z.to_nat n) commData_ctor)));
           maxCpu := dzero; maxClock := dzero; maxTasks := 0;
           td_maxConc := 0; maxComms := 0; maxSize := 0;
           firstTag := Unset |}.
Proof.
  intros [H0 Hmax]. unfold tagData_ctor, new_array.
  rewrite !decide_True by lia. cbn [bind].
  pose proof (tagData_rows_fill (Z.to_nat n) (Z.to_nat n) 0 n) as Hrows.
  change (Z.of_nat 0) with 0 in Hrows. cbn [replicate app Nat.add] in Hrows.
  rewrite Hrows; [done | lia | lia | done].
Qed.

Lemma int_add_ret (a b c : Z) :
  int_add a b = Ret c -> c = a + b /\ INT_MIN <= a + b <= INT_MAX.
Proof.
  unfold int_add. destruct (decide (INT_MIN <= a + b <= INT_MAX)).
  - intros Heq. injection Heq as <-. done.
  - discriminate.
Qed.

(** Over more locales than an [int] counts, the loop counter overflows
    before the loop is left. *)
Lemma tagData_rows_overflow (fuel : nat) : forall (n i : Z)
    (comms r : aptr (aptr commData)),
  i <= INT_MAX < n -> tagData_rows fuel n i comms <> Ret r.
Proof.
  induction fuel as [|fuel IH]; intros n i comms r Hi Hrun;
    cbn [tagData_rows] in Hrun; rewrite decide_True in Hrun by lia.
  - discriminate.
  - apply bind_ret in Hrun as (row & _ & Hrun).
    apply bind_ret in Hrun as (comms' & _ & Hrun).
    apply bind_ret in Hrun as (i' & Hi' & Hrun).
    apply int_add_ret in Hi' as [-> Hi'].
    apply IH in Hrun; [done | lia].
Qed.

Lemma tagData_ctor_range (n : Z) (td : tagData) :
  tagData_ctor n = Ret td -> 0 <= n <= INT_MAX.
Proof.
  unfold tagData_ctor. intros Hrun.
  apply bind_ret in Hrun as (ls & Hls & Hrun).
  apply bind_ret in Hrun as (cs & _ & Hrun).
  apply bind_ret in Hrun as (cs' & Hrows & _).
  unfold new_array in Hls. case_decide as H0; [| discriminate].
  split; [done |].
  destruct (decide (n <= INT_MAX)) as [| Hbig]; [done |].
  apply tagData_rows_overflow in Hrows; [done |]. unfold INT_MAX in *. lia.
Qed.

(** C7. Every tag entry constructed over [n] locales (and the constructor
    does return one for each count from 0 to the largest [int]) has a
    communication matrix of [n] rows of [n] cells each, filled or not, and
    each of the [n * n] cells is read back with its five counters at
    zero. *)
Theorem tagData_comms_square (n : Z) :
  (0 <= n <= INT_MAX -> exists td, tagData_ctor n = Ret td)
  /\ (forall td, tagData_ctor n = Ret td ->
      td_numLocales td = n
      /\ exists rows,
          comms td = Arr rows
          /\ Z.of_nat (length rows) = n
          /\ (forall row, row ∈ rows ->
                exists cells, row = Arr cells /\ Z.of_nat (length cells) = n)
          /\ (forall i j, 0 <= i < n -> 0 <= j < n ->
                exists c,
                  (row <- index (comms td) i ;; index row j) = Ret c
                  /\ numComms c = 0 /\ numGets c = 0 /\ numPuts c = 0
                  /\ numForks c = 0 /\ commSize c = 0)).
Proof.
  split.
  { intros Hn. rewrite (tagData_ctor_ret n Hn). by eexists. }
  intros td Hctor.
  pose proof (tagData_ctor_range n td Hctor) as Hn.
  rewrite (tagData_ctor_ret n Hn) in Hctor. injection Hctor as <-.
  cbn [td_numLocales comms].
  split; [done |]. eexists. split; [reflexivity |].
  split; [rewrite length_replicate; lia |].
  split.
  - intros row Hrow. apply elem_of_replicate in Hrow as [-> _].
    eexists. split; [reflexivity |]. rewrite length_replicate. lia.
  - intros i j Hi Hj. exists commData_ctor.
    split; [| done].
    unfold index. rewrite decide_True by lia.
    rewrite lookup_replicate_2 by lia. cbn [bind].
    rewrite decide_True by lia.
    by rewrite lookup_replicate_2 by lia.
Qed.

(** ** The folded accessor *)

Lemma index_Arr {A} (l : list A) (i : Z) (a : A) :
  0 <= i -> l !! Z.to_nat i = Some a -> index (Arr l) i = Ret a.
Proof.
  intros Hi Hl. unfold index. rewrite decide_True by done. by rewrite Hl.
Qed.

Lemma index_fault_free {A} (l : list A) (i : Z) :
  0 <= i < Z.of_nat (length l) ->
  exists a, l !! Z.to_nat i = Some a /\ index (Arr l) i = Ret a.
Proof.
  intros Hi. destruct (lookup_lt_is_Some_2 l (Z.to_nat i)) as [a Ha]; [lia |].
  exists a. split; [done |]. apply index_Arr; [lia | done].
Qed.

Lemma getTagData_outside (m : DataModel) (tagno : Z) :
  tagno < TagALL \/ numTags m <= tagno -> getTagData m tagno = Ret NULL.
Proof.
  intros Hout. unfold getTagData.
  destruct (tagno <? TagALL) eqn:E1; [done |].
  destruct (tagno >=? numTags m) eqn:E2; [done |].
  apply Z.ltb_ge in E1. rewrite Z.geb_leb in E2. apply Z.leb_gt in E2. lia.
Qed.

Lemma getTagData_inside (m : DataModel) (tagno : Z) :
  TagALL <= tagno < numTags m -> numTags m + 2 <= INT_MAX ->
  getTagData m tagno = index (tagList m) (tagno + 2).
Proof.
  intros Hin Hmax. unfold getTagData.
  rewrite (proj2 (Z.ltb_ge tagno TagALL)) by lia.
  rewrite Z.geb_leb, (proj2 (Z.leb_gt (numTags m) tagno)) by lia.
  cbn [orb]. unfold int_sub.
  rewrite decide_True by (unfold TagALL, INT_MIN, INT_MAX in *; lia).
  cbn [bind]. reflexivity.
Qed.

(** C1. For every integer [tagno], [getTagData] returns NULL when
    [tagno < TagALL] or [tagno >= numTags]; and on a model whose tag array
    has the [numTags + 2] entries the header documents, an id of
    [[TagALL, numTags)] is answered with the entry stored for it, at an
    index inside the array, so that no argument at all makes the accessor
    fault. *)
Theorem getTagData_range_checked (m : DataModel) (tagno : Z) :
  (tagno < TagALL \/ numTags m <= tagno -> getTagData m tagno = Ret NULL)
  /\ (forall l, tagList_sized m l ->
       (TagALL <= tagno < numTags m ->
        exists p,
          0 <= tagno - TagALL < Z.of_nat (length l)
          /\ l !! Z.to_nat (tagno - TagALL) = Some p
          /\ getTagData m tagno = Ret p)
       /\ (forall f, getTagData m tagno <> Fault f)).
Proof.
  split; [apply getTagData_outside |].
  intros l (Hl & H0 & Hmax & Hlen).
  assert (Hin : TagALL <= tagno < numTags m ->
    exists p, 0 <= tagno - TagALL < Z.of_nat (length l)
      /\ l !! Z.to_nat (tagno - TagALL) = Some p
      /\ getTagData m tagno = Ret p).
  { intros Hin. rewrite getTagData_inside, Hl by done.
    replace (tagno - TagALL) with (tagno + 2) by (unfold TagALL; lia).
    destruct (index_fault_free l (tagno + 2)) as (p & Hp & Hidx).
    { unfold TagALL in Hin. lia. }
    exists p. unfold TagALL in Hin. split; [lia |]. by split. }
  split; [done |].
  intros f Hf.
  destruct (decide (TagALL <= tagno < numTags m)) as [Hr | Hr].
  - destruct (Hin Hr) as (p & _ & _ & Hp). congruence.
  - rewrite getTagData_outside in Hf by lia. discriminate.
Qed.

(** ** The literal-occurrence accessor *)

Lemma getUTagData_TagALL (m : DataModel) :
  getUTagData m TagALL = index (tagList m) 0.
Proof. reflexivity. Qed.

Lemma getUTagData_TagStart (m : DataModel) :
  getUTagData m TagStart = index (tagList m) 1.
Proof. reflexivity. Qed.

Lemma getTagData_sentinels (m : DataModel) :
  0 <= numTags m ->
  getTagData m TagALL = index (tagList m) 0
  /\ getTagData m TagStart = index (tagList m) 1.
Proof.
  intros H0. unfold getTagData, TagALL, TagStart.
  rewrite !Z.geb_leb.
  rewrite (proj2 (Z.leb_gt (numTags m) (-2))) by lia.
  rewrite (proj2 (Z.leb_gt (numTags m) (-1))) by lia.
  done.
Qed.

(** C10. Whatever the model, [getUTagData(TagALL)] is the read of
    position 0 and [getUTagData(TagStart)] the read of position 1 of the
    folded tag array, the very reads [getTagData] makes for these ids;
    neither the folding flag, nor the name map, nor the secondary list
    has any part in the answer. *)
Theorem getUTagData_sentinels (m : DataModel) :
  getUTagData m TagALL = index (tagList m) 0
  /\ getUTagData m TagStart = index (tagList m) 1
  /\ (forall u n2t ul,
        getUTagData (with_folding m u n2t ul) TagALL = getUTagData m TagALL
        /\ getUTagData (with_folding m u n2t ul) TagStart
           = getUTagData m TagStart)
  /\ (0 <= numTags m ->
        getUTagData m TagALL = getTagData m TagALL
        /\ getUTagData m TagStart = getTagData m TagStart)
  /\ (forall l p0 p1, tagList m = Arr l -> l !! 0%nat = Some p0 ->
        l !! 1%nat = Some p1 ->
        getUTagData m TagALL = Ret p0 /\ getUTagData m TagStart = Ret p1).
Proof.
  split; [reflexivity |]. split; [reflexivity |].
  split; [intros; split; reflexivity |].
  split.
  - intros H0. destruct (getTagData_sentinels m H0) as [-> ->].
    split; reflexivity.
  - intros l p0 p1 Hl H0 H1.
    rewrite getUTagData_TagALL, getUTagData_TagStart, Hl.
    split; apply index_Arr; done.
Qed.

Lemma to_int_small (u : Z) : 0 <= u <= INT_MAX -> to_int u = u.
Proof.
  unfold to_int, INT_MAX. intros Hu.
  rewrite Z.mod_small by lia. lia.
Qed.

(** The tests of [getUTagData] past the two sentinels. *)
Lemma getUTagData_gate (m : DataModel) (tagno : Z) :
  tagno <> TagALL -> tagno <> TagStart ->
  getUTagData m tagno =
    if decide (uniqueTags m = false /\ 0 <= tagno < NumUTags m)
    then index (utagList m) tagno else Ret NULL.
Proof.
  intros H1 H2. unfold getUTagData, NumUTags.
  rewrite (proj2 (Z.eqb_neq tagno TagALL)) by done.
  rewrite (proj2 (Z.eqb_neq tagno TagStart)) by done.
  rewrite Z.geb_leb.
  destruct (uniqueTags m); cbn [orb].
  { rewrite decide_False; [done | intros [? _]; done]. }
  destruct (Z.leb_spec (to_int (Z.of_nat (size (name2tag m)))) tagno);
    cbn [orb].
  { rewrite decide_False; [done | lia]. }
  destruct (Z.ltb_spec tagno 0).
  { rewrite decide_False; [done | lia]. }
  rewrite decide_True; [done | lia].
Qed.

(** [NumUTags] bounds exactly the ids the secondary list is read for. *)
Lemma utag_addressable_iff (m : DataModel) (i : Z) :
  uniqueTags m = false ->
  utag_addressable m i <-> 0 <= i < NumUTags m.
Proof.
  intros Hu. split.
  - intros Haddr.
    destruct (decide (i = TagALL)) as [-> | H1].
    { pose proof (Haddr Wild) as HW. pose proof (Haddr Null) as HN.
      rewrite getUTagData_TagALL in HW, HN. cbn in HW, HN. congruence. }
    destruct (decide (i = TagStart)) as [-> | H2].
    { pose proof (Haddr Wild) as HW. pose proof (Haddr Null) as HN.
      rewrite getUTagData_TagStart in HW, HN. cbn in HW, HN. congruence. }
    pose proof (Haddr Null) as HN.
    rewrite getUTagData_gate in HN by done.
    change (NumUTags (with_utagList m Null)) with (NumUTags m) in HN.
    case_decide as Hd; [exact (proj2 Hd) | discriminate].
  - intros Hi ul.
    rewrite getUTagData_gate by (unfold TagALL, TagStart; lia).
    change (NumUTags (with_utagList m ul)) with (NumUTags m).
    rewrite decide_True; done.
Qed.

(** An object is handed out by the folded accessor only from a position
    of the tag array that answers for a tag of [[TagALL, numTags)]. *)
Lemma getTagData_Addr (m : DataModel) (t : Z) (a : positive) :
  getTagData m t = Ret (Addr a) ->
  TagALL <= t < numTags m
  /\ index (tagList m) (t - TagALL) = Ret (Addr a).
Proof.
  unfold getTagData. intros Hget.
  destruct (Z.ltb_spec t TagALL); cbn [orb] in Hget; [discriminate |].
  rewrite Z.geb_leb in Hget.
  destruct (Z.leb_spec (numTags m) t); [discriminate |].
  apply bind_ret in Hget as (i & Hi & Hget).
  unfold int_sub in Hi. case_decide; [| discriminate].
  injection Hi as <-. split; [lia | done].
Qed.

(** ** What the destructor requires of the two arrays *)

Lemma delete_ptr_ret (h h' : gmap positive tagData) (p : ptr) :
  delete_ptr h p = Ret h' ->
  dom h' ⊆ dom h
  /\ forall a, p = Addr a -> a ∈ dom h /\ a ∉ dom h'.
Proof.
  destruct p as [|a]; cbn [delete_ptr].
  - intros Heq. injection Heq as <-. split; [done | discriminate].
  - destruct (h !! a) as [td|] eqn:Ha; [| discriminate].
    intros Hb. apply bind_ret in Hb as (_ & _ & Heq).
    injection Heq as <-.
    rewrite dom_delete_L. split; [by apply subseteq_difference_l |].
    intros a' Heq. injection Heq as <-.
    split; [by apply elem_of_dom |].
    rewrite elem_of_difference, elem_of_singleton. intros [_ Hn]. by apply Hn.
Qed.

(** After the first loop no address found in the positions it visited
    is live any more. *)
Lemma dtor_tags_ret (fuel : nat) : forall (m : DataModel) (ix : Z)
    (h h' : gmap positive tagData),
  dtor_tags fuel m ix h = Ret h' ->
  dom h' ⊆ dom h
  /\ forall j a, ix <= j < numTags m + 2 ->
       index (tagList m) j = Ret (Addr a) -> a ∉ dom h'.
Proof.
  induction fuel as [|fuel IH]; intros m ix h h' Hrun.
  - cbn [dtor_tags] in Hrun.
    apply bind_ret in Hrun as (bound & Hbound & Hrun).
    apply int_add_ret in Hbound as [-> Hbound].
    case_decide; [discriminate |]. injection Hrun as <-.
    split; [done | intros; lia].
  - cbn [dtor_tags] in Hrun.
    apply bind_ret in Hrun as (bound & Hbound & Hrun).
    apply int_add_ret in Hbound as [-> Hbound].
    case_decide as Hlt.
    2:{ injection Hrun as <-. split; [done | intros; lia]. }
    apply bind_ret in Hrun as (p & Hp & Hrun).
    apply bind_ret in Hrun as (h1 & Hdel & Hrun).
    apply bind_ret in Hrun as (ix' & Hix & Hrun).
    apply int_add_ret in Hix as [-> Hix].
    apply delete_ptr_ret in Hdel as [Hsub Hgone].
    apply IH in Hrun as [Hsub' Hrest].
    split; [by transitivity (dom h1) |].
    intros j a Hj Hidx.
    destruct (decide (j = ix)) as [-> | Hne].
    + rewrite Hp in Hidx. injection Hidx as ->.
      destruct (Hgone a eq_refl) as [_ Hnot].
      intros Hin. apply Hnot, Hsub', Hin.
    + apply (Hrest j a); [lia | done].
Qed.

(** The second loop finds every address of the positions it visits
    live. *)
Lemma dtor_utags_ret (fuel : nat) : forall (m : DataModel) (ix : Z)
    (h h' : gmap positive tagData),
  0 <= ix ->
  dtor_utags fuel m ix h = Ret h' ->
  dom h' ⊆ dom h
  /\ forall i a, ix <= i < Z.of_nat (size (name2tag m)) -> i < 2 ^ 32 ->
       index (utagList m) i = Ret (Addr a) -> a ∈ dom h.
Proof.
  induction fuel as [|fuel IH]; intros m ix h h' Hix Hrun.
  - cbn [dtor_utags] in Hrun.
    case_decide; [discriminate |]. injection Hrun as <-.
    split; [done | intros; lia].
  - cbn [dtor_utags] in Hrun.
    case_decide as Hlt.
    2:{ injection Hrun as <-. split; [done | intros; lia]. }
    apply bind_ret in Hrun as (p & Hp & Hrun).
    apply bind_ret in Hrun as (h1 & Hdel & Hrun).
    apply delete_ptr_ret in Hdel as [Hsub Hlive].
    assert (Hnext : 0 <= (ix + 1) mod 2 ^ 32 <= ix + 1).
    { split; [apply Z.mod_pos_bound; lia | apply Z.mod_le; lia]. }
    apply IH in Hrun as [Hsub' Hrest]; [| lia].
    split; [by transitivity (dom h1) |].
    intros i a Hi H32 Hidx.
    destruct (decide (i = ix)) as [-> | Hne].
    + rewrite Hp in Hidx. injection Hidx as ->.
      by destruct (Hlive a eq_refl).
    + apply Hsub, (Hrest i a); [lia | done | done].
Qed.

(** A model the destructor can be run on owns the objects of its two
    arrays separately: no object of the secondary list is in the tag
    array. *)
Lemma dtor_separates (m : DataModel) (h h' : gmap positive tagData)
    (i j : Z) (a : positive) :
  DataModel_dtor m h = Ret h' ->
  0 <= i < Z.of_nat (size (name2tag m)) -> i < 2 ^ 32 ->
  0 <= j < numTags m + 2 ->
  index (utagList m) i = Ret (Addr a) ->
  index (tagList m) j <> Ret (Addr a).
Proof.
  intros Hrun Hi H32 Hj Hu Ht. unfold DataModel_dtor in Hrun.
  apply bind_ret in Hrun as (t1 & Ht1 & Hrun).
  apply bind_ret in Hrun as (h1 & Hh1 & Hrun).
  apply bind_ret in Hrun as (t2 & _ & Hrun).
  apply bind_ret in Hrun as (_ & _ & Hrun).
  apply bind_ret in Hrun as (t3 & Ht3 & Hrun).
  destruct (tagList m) as [| |tl] eqn:Htl; [done | done |].
  injection Ht1 as <-.
  apply bind_ret in Hh1 as (h0 & Hloop & Hh1).
  cbn in Hh1. injection Hh1 as <-.
  apply dtor_tags_ret in Hloop as [_ Hgone].
  rewrite Htl in Hgone.
  destruct (utagList m) as [| |ul] eqn:Hul; [done | done |].
  injection Ht3 as <-.
  apply bind_ret in Hrun as (h2 & Hloop2 & _).
  apply dtor_utags_ret in Hloop2 as [_ Hlive]; [| done].
  rewrite Hul in Hlive.
  apply (Hgone j a); [lia | done |].
  apply (Hlive i a); [lia | done | done].
Qed.

(** C3. With folding in effect ([uniqueTags] true) [getUTagData] returns
    nothing for every id other than the two sentinels.  With folding
    disabled, an id [i] below the count of literal occurrences is answered
    with entry [i] of the literal-occurrence list: the tag array plays no
    part in the answer, and the object returned is none of those the
    folded accessor hands out, the two arrays owning their objects
    separately in every model the destructor can be run on. *)
Theorem getUTagData_folding (m : DataModel) (i : Z) :
  (uniqueTags m = true -> i <> TagALL -> i <> TagStart ->
   getUTagData m i = Ret NULL)
  /\ (uniqueTags m = false -> 0 <= i < NumUTags m ->
      forall ul, utagList_sized m ul ->
      exists p,
        ul !! Z.to_nat i = Some p
        /\ getUTagData m i = Ret p
        /\ (forall tl, getUTagData (with_tagList m tl) i = Ret p)
        /\ (forall h h' a t, DataModel_dtor m h = Ret h' -> p = Addr a ->
              getTagData m t <> Ret (Addr a))).
Proof.
  split.
  - intros Hu H1 H2. rewrite getUTagData_gate by done.
    rewrite decide_False; [done |]. intros [Hf _]. congruence.
  - intros Hu Hi ul (Hul & Hlen & Hmax).
    assert (Hn : NumUTags m = Z.of_nat (size (name2tag m))).
    { unfold NumUTags. apply to_int_small. lia. }
    destruct (index_fault_free ul i) as (p & Hp & Hidx); [lia |].
    exists p. split; [done |].
    assert (Hget : getUTagData m i = Ret p).
    { rewrite getUTagData_gate by (unfold TagALL, TagStart; lia).
      rewrite decide_True by done. by rewrite Hul. }
    split; [done |]. split.
    + intros tl. rewrite getUTagData_gate by (unfold TagALL, TagStart; lia).
      change (NumUTags (with_tagList m tl)) with (NumUTags m).
      change (uniqueTags (with_tagList m tl)) with (uniqueTags m).
      change (utagList (with_tagList m tl)) with (utagList m).
      rewrite decide_True by done. by rewrite Hul.
    + intros h h' a t Hdtor -> Hget'.
      apply getTagData_Addr in Hget' as (Hr & Hidx').
      revert Hidx'. apply (dtor_separates m h h' i (t - TagALL) a);
        [done | lia | unfold INT_MAX in Hmax; lia
        | unfold TagALL in *; lia | by rewrite Hul].
Qed.

(** C6. With folding disabled, [NumUTags] is the number of entries
    addressable through [getUTagData]: the ids for which the accessor
    reads the literal-occurrence list are exactly those from 0 up to
    [NumUTags], so any enumeration of them without repetition has
    [NumUTags] members; and [NumUTags] is the number of entries of a list
    of the size the destructor frees, each answered under its id. *)
Theorem NumUTags_counts_entries (m : DataModel) :
  uniqueTags m = false -> Z.of_nat (size (name2tag m)) <= INT_MAX ->
  NumUTags m = Z.of_nat (size (name2tag m))
  /\ (forall i, utag_addressable m i <-> 0 <= i < NumUTags m)
  /\ (forall ids : list Z, NoDup ids ->
        (forall i, i ∈ ids <-> utag_addressable m i) ->
        Z.of_nat (length ids) = NumUTags m)
  /\ (forall ul, utagList_sized m ul ->
        NumUTags m = Z.of_nat (length ul)
        /\ forall i, 0 <= i < NumUTags m ->
             exists p, ul !! Z.to_nat i = Some p /\ getUTagData m i = Ret p).
Proof.
  intros Hu Hmax.
  assert (Hn : NumUTags m = Z.of_nat (size (name2tag m))).
  { unfold NumUTags. apply to_int_small. lia. }
  split; [done |]. split; [intros i; by apply utag_addressable_iff |].
  split.
  - intros ids Hnd Hids.
    assert (Hperm : ids ≡ₚ seqZ 0 (NumUTags m)).
    { apply NoDup_Permutation; [done | apply NoDup_seqZ |].
      intros i. rewrite Hids, utag_addressable_iff, elem_of_seqZ by done.
      lia. }
    rewrite Hperm, length_seqZ. lia.
  - intros ul (Hul & Hlen & _).
    split; [by rewrite Hlen |].
    intros i Hi.
    destruct (index_fault_free ul i) as (p & Hp & Hidx); [lia |].
    exists p. split; [done |].
    rewrite getUTagData_gate by (unfold TagALL, TagStart; lia).
    rewrite decide_True by done. by rewrite Hul.
Qed.

(** ** Start time and file names *)

(** C8. On a model whose merged event list is not empty, [start_clock]
    returns the clock time of the first event of that list. *)
Theorem start_clock_first_event (m : DataModel) :
  theEvents m <> [] ->
  exists e, head (theEvents m) = Some e
    /\ start_clock m = Ret (clock_time e).
Proof.
  intros Hne. unfold start_clock.
  destruct (theEvents m) as [|e rest]; [done |].
  exists e. done.
Qed.

Lemma file_in_range_ret (m : DataModel) (fileNo n : Z) :
  fileTblSize m = Val n ->
  file_in_range m fileNo = Ret (bool_decide (0 <= fileNo < n)).
Proof.
  intros Hn. unfold file_in_range. rewrite Hn. cbn [read bind].
  rewrite Z.geb_leb.
  destruct (Z.leb_spec 0 fileNo); [destruct (Z.ltb_spec fileNo n) |].
  - by rewrite bool_decide_eq_true_2 by lia.
  - by rewrite bool_decide_eq_false_2 by lia.
  - by rewrite bool_decide_eq_false_2 by lia.
Qed.

(** C9. Once the table size [fileTblSize] is set, [fileName] answers
    every [fileNo]: outside [0 <= fileNo < fileTblSize] it does not touch
    the table and returns the string "<unknown>" (and [fileIsRel2Home]
    false); inside, with the table holding [fileTblSize] names, it returns
    the name, and [fileIsRel2Home] the flag, stored for that id. *)
Theorem fileName_resolves (m : DataModel) (fileNo n : Z) :
  fileTblSize m = Val n ->
  (~ 0 <= fileNo < n ->
   fileName m fileNo = Ret "<unknown>"%string
   /\ fileIsRel2Home m fileNo = Ret false)
  /\ (forall tbl, fileTbl m = Arr tbl -> Z.of_nat (length tbl) = n ->
      (0 <= fileNo < n ->
       exists f, tbl !! Z.to_nat fileNo = Some f
         /\ fileName m fileNo = Ret (name f)
         /\ fileIsRel2Home m fileNo = Ret (rel2Home f))
      /\ (forall e, fileName m fileNo <> Fault e)).
Proof.
  intros Hn.
  assert (Hout : ~ 0 <= fileNo < n ->
    fileName m fileNo = Ret "<unknown>"%string
    /\ fileIsRel2Home m fileNo = Ret false).
  { intros Hr. unfold fileName, fileIsRel2Home.
    rewrite (file_in_range_ret m fileNo n Hn).
    by rewrite bool_decide_eq_false_2 by done. }
  split; [exact Hout |].
  intros tbl Htbl Hlen.
  assert (Hin : 0 <= fileNo < n ->
    exists f, tbl !! Z.to_nat fileNo = Some f
      /\ fileName m fileNo = Ret (name f)
      /\ fileIsRel2Home m fileNo = Ret (rel2Home f)).
  { intros Hr.
    destruct (index_fault_free tbl fileNo) as (f & Hf & Hidx); [lia |].
    exists f. split; [done |]. unfold fileName, fileIsRel2Home.
    rewrite (file_in_range_ret m fileNo n Hn).
    rewrite bool_decide_eq_true_2 by done. cbn [bind].
    by rewrite Htbl, Hidx. }
  split; [exact Hin |].
  intros e He. destruct (decide (0 <= fileNo < n)) as [Hr | Hr].
  - destruct (Hin Hr) as (f & _ & Hf & _). congruence.
  - destruct (Hout Hr) as [Hu _]. congruence.
Qed.

(** ** The model before any load *)

(** C2. What the accessors do on the model the constructor leaves,
    for every argument.  [getTagData] and [getUTagData] return NULL for
    every id but [TagALL] and [TagStart]; for these two the range test
    passes, [numTags] being 0, and the null tag array is indexed.
    [start_clock] dereferences the end of the empty event list.
    [fileName] returns "<unknown>" for a negative id and for any other
    reads the table size, which the constructor does not set. *)
Theorem never_loaded_accessors :
  (forall t,
     getTagData DataModel_ctor t
     = if decide (t = TagALL \/ t = TagStart) then Fault NullDeref
       else Ret NULL)
  /\ (forall t,
       getUTagData DataModel_ctor t
       = if decide (t = TagALL \/ t = TagStart) then Fault NullDeref
         else Ret NULL)
  /\ start_clock DataModel_ctor = Fault EndDeref
  /\ (forall fileNo,
       fileName DataModel_ctor fileNo
       = if decide (0 <= fileNo) then Fault Indeterminate
         else Ret "<unknown>"%string)
  /\ NumTags DataModel_ctor = 0
  /\ NumUTags DataModel_ctor = 0
  /\ hasUniqueTags DataModel_ctor = true
  /\ NumLocales DataModel_ctor = -1.
Proof.
  split.
  { intros t. case_decide as Ht.
    - destruct Ht as [-> | ->]; reflexivity.
    - apply getTagData_outside. cbn [numTags DataModel_ctor].
      unfold TagALL, TagStart in *. lia. }
  split.
  { intros t. case_decide as Ht.
    - destruct Ht as [-> | ->]; reflexivity.
    - rewrite getUTagData_gate by (intros ->; apply Ht; auto).
      rewrite decide_False; [done |]. intros [Hf _]. discriminate. }
  split; [reflexivity |].
  split; [| done].
  intros fileNo. unfold fileName, file_in_range. rewrite Z.geb_leb.
  case_decide.
  - by rewrite (proj2 (Z.leb_le 0 fileNo)) by done.
  - by rewrite (proj2 (Z.leb_gt 0 fileNo)) by lia.
Qed.

(** ** The tag array a load builds *)

Lemma new_tags_ret (k : nat) : forall (n : Z) (h h' : gmap positive tagData)
    (tl : list ptr),
  new_tags k n h = Ret (tl, h') ->
  length tl = k
  /\ h ⊆ h'
  /\ forall p, p ∈ tl ->
       exists a td, p = Addr a /\ h !! a = None /\ h' !! a = Some td
         /\ tagData_ctor n = Ret td.
Proof.
  induction k as [|k IH]; intros n h h' tl Hnew; cbn [new_tags] in Hnew.
  - injection Hnew as <- <-.
    split; [done |]. split; [done |]. intros p Hp. by apply elem_of_nil in Hp.
  - apply bind_ret in Hnew as (td & Htd & Hnew).
    apply bind_ret in Hnew as ([tl1 h1] & Hrec & Hnew).
    cbn [fst snd] in Hnew. injection Hnew as <- <-.
    apply IH in Hrec as (Hlen & Hsub & Hrest).
    assert (Hfresh : h !! fresh (dom h) = None).
    { apply not_elem_of_dom, is_fresh. }
    assert (Hh : h ⊆ h1).
    { transitivity (<[fresh (dom h) := td]> h); [| done].
      by apply insert_subseteq. }
    split; [cbn; by rewrite Hlen |]. split; [done |].
    intros p Hp. apply elem_of_cons in Hp as [-> | Hp].
    + exists (fresh (dom h)), td. repeat split; [done | | done].
      eapply lookup_weaken; [| exact Hsub]. apply lookup_insert_eq.
    + destruct (Hrest p Hp) as (a & td' & -> & Hnone & Hsome & Hctor).
      exists a, td'. repeat split; [| done | done].
      apply lookup_insert_None in Hnone as [Hnone _]. done.
Qed.

(** C5. After a load that succeeds the tag array has exactly
    [numTags + 2] entries, each a live tag entry over the locales of the
    run; position 0 answers for [TagALL], position 1 for [TagStart], and
    a tag [t] of [[TagALL, numTags)] is answered from position [t + 2],
    that is [t - TagALL]. *)
Theorem LoadData_tag_array (m m' : DataModel) (h h' : gmap positive tagData)
    (files : gmap Z TraceFile) :
  LoadData m h files = (1, m', h') ->
  exists tl,
    tagList m' = Arr tl
    /\ 0 <= numTags m'
    /\ Z.of_nat (length tl) = numTags m' + 2
    /\ (forall p, p ∈ tl ->
          exists a td, p = Addr a /\ h' !! a = Some td
            /\ tagData_ctor (numLocales m') = Ret td)
    /\ (exists p0 p1,
          tl !! 0%nat = Some p0 /\ tl !! 1%nat = Some p1
          /\ getTagData m' TagALL = Ret p0
          /\ getTagData m' TagStart = Ret p1)
    /\ (forall t, TagALL <= t < numTags m' ->
          exists p,
            tl !! Z.to_nat (t - TagALL) = Some p
            /\ (numTags m' + 2 <= INT_MAX -> getTagData m' t = Ret p)).
Proof.
  unfold LoadData. intros Hload.
  destruct (load_events files) as [err | [n evs]]; [discriminate |].
  destruct (discover_tags evs) as [names |]; [| discriminate].
  destruct (new_tags (length names + 2) n h) as [[tl h1] | f] eqn:Htl;
    [| discriminate].
  destruct (if (register_tags names).1 then Ret ([], h1)
            else new_tags (size (register_tags names).2) n h1)
    as [[ul h2] | f] eqn:Hul; [| discriminate].
  injection Hload as <- <-.
  apply new_tags_ret in Htl as (Hlen & Hsub & Hobj).
  assert (Hsub2 : h1 ⊆ h2).
  { destruct (register_tags names).1.
    - by injection Hul as _ <-.
    - by apply new_tags_ret in Hul as (_ & ? & _). }
  exists tl. cbn [tagList numTags numLocales].
  split; [done |]. split; [lia |]. split; [lia |].
  split.
  { intros p Hp. destruct (Hobj p Hp) as (a & td & -> & _ & Hlive & Hctor).
    exists a, td. repeat split; [| done].
    eapply lookup_weaken; [exact Hlive | exact Hsub2]. }
  split.
  { destruct tl as [|p0 [|p1 tl]]; [cbn in Hlen; lia | cbn in Hlen; lia |].
    exists p0, p1. repeat split.
    all: unfold getTagData, TagALL, TagStart; cbn [numTags];
      rewrite Z.geb_leb;
      rewrite (proj2 (Z.leb_gt _ _)) by lia; reflexivity. }
  intros t Ht.
  replace (t - TagALL) with (t + 2) by (unfold TagALL; lia).
  destruct (index_fault_free tl (t + 2)) as (p & Hp & Hidx).
  { unfold TagALL in Ht. lia. }
  exists p. split; [done |]. intros Hmax.
  by rewrite getTagData_inside by done.
Qed.

(** A loaded model is in the states the accessor properties are stated
    for, as long as its counts are [int]s. *)
Lemma LoadData_sized (m m' : DataModel) (h h' : gmap positive tagData)
    (files : gmap Z TraceFile) :
  LoadData m h files = (1, m', h') ->
  (numTags m' + 2 <= INT_MAX -> exists tl, tagList_sized m' tl)
  /\ (uniqueTags m' = false ->
      Z.of_nat (size (name2tag m')) <= INT_MAX ->
      exists ul, utagList_sized m' ul)
  /\ exists n, fileTblSize m' = Val n
       /\ exists tbl, fileTbl m' = Arr tbl /\ Z.of_nat (length tbl) = n.
Proof.
  unfold LoadData. intros Hload.
  destruct (load_events files) as [err | [n evs]]; [discriminate |].
  destruct (discover_tags evs) as [names |]; [| discriminate].
  destruct (new_tags (length names + 2) n h) as [[tl h1] | f] eqn:Htl;
    [| discriminate].
  destruct (register_tags names) as [u n2t] eqn:Hreg. cbn [fst snd] in Hload.
  destruct (if u then Ret ([], h1) else new_tags (size n2t) n h1)
    as [[ul h2] | f] eqn:Hul; [| discriminate].
  injection Hload as <- <-.
  apply new_tags_ret in Htl as (Hlen & _ & _).
  cbn [tagList numTags uniqueTags name2tag utagList fileTbl fileTblSize].
  split; [| split].
  - intros Hmax. exists tl. unfold tagList_sized. cbn [tagList numTags].
    repeat split; [lia | lia | lia].
  - intros -> Hmax. apply new_tags_ret in Hul as (Hlen' & _ & _).
    exists ul. unfold utagList_sized. cbn [utagList name2tag].
    by repeat split.
  - eexists. split; [reflexivity |]. eexists. by split.
Qed.

(** ** The merged event list *)

Lemma event_le_spec (a b : Event) :
  event_le a b = true <->
  dlt (clock_time a) (clock_time b) = true
  \/ (dlt (clock_time b) (clock_time a) = false
      /\ (nodeId a < nodeId b
          \/ (nodeId a = nodeId b /\ seqNo a <= seqNo b))).
Proof.
  unfold event_le.
  rewrite orb_true_iff, andb_true_iff, negb_true_iff, orb_true_iff,
    andb_true_iff, Z.ltb_lt, Z.eqb_eq, Z.leb_le.
  done.
Qed.

Lemma event_le_total (a b : Event) :
  event_le a b = false -> event_le b a = true.
Proof.
  intros Hab. apply event_le_spec.
  destruct (dlt (clock_time b) (clock_time a)) eqn:Hba; [by left |].
  right.
  destruct (dlt (clock_time a) (clock_time b)) eqn:Hab'.
  { assert (event_le a b = true) by (apply event_le_spec; by left).
    congruence. }
  split; [done |].
  destruct (decide (nodeId b < nodeId a
                    \/ (nodeId b = nodeId a /\ seqNo b <= seqNo a)))
    as [Hk | Hk]; [done |].
  assert (event_le a b = true); [| congruence].
  apply event_le_spec. right. split; [done | lia].
Qed.

Lemma insert_event_perm (e : Event) (l : list Event) :
  insert_event e l ≡ₚ e :: l.
Proof.
  induction l as [|x l IH]; cbn [insert_event]; [done |].
  destruct (event_le e x); [done |].
  rewrite IH. apply Permutation_swap.
Qed.

Lemma merge_events_perm (records : list Event) : forall acc,
  merge_events records acc ≡ₚ records ++ acc.
Proof.
  unfold merge_events.
  induction records as [|e records IH]; intros acc; cbn [foldl]; [done |].
  rewrite IH, insert_event_perm. symmetry. apply Permutation_middle.
Qed.

Lemma merge_events_app (r1 r2 acc : list Event) :
  merge_events (r1 ++ r2) acc = merge_events r2 (merge_events r1 acc).
Proof. unfold merge_events. apply foldl_app. Qed.

Lemma ingest_records_ret (n : Z) (recs : list (option Event)) :
  forall acc acc',
  ingest_records n recs acc = inr acc' ->
  acc' = merge_events (omap id recs) acc
  /\ Forall (fun r => exists e, r = Some e /\ 0 <= nodeId e < n) recs.
Proof.
  induction recs as [|[e|] recs IH]; intros acc acc' Hin;
    cbn [ingest_records] in Hin.
  - injection Hin as <-. done.
  - destruct (0 <=? nodeId e) eqn:E1; [| discriminate].
    destruct (nodeId e <? n) eqn:E2; [| discriminate].
    cbn [andb] in Hin. apply IH in Hin as [-> Hall].
    split; [done |]. constructor; [| done].
    exists e. split; [done |]. lia.
  - discriminate.
Qed.

Lemma ingest_files_ret (n : Z) (files : gmap Z TraceFile) (idxs : list Z) :
  forall acc evs,
  ingest_files n idxs files acc = inr evs ->
  evs = merge_events (all_records files idxs) acc
  /\ Forall (fun i => exists f, files !! i = Some f
                        /\ tf_numLocales f = n
                        /\ Forall is_Some (tf_records f)) idxs.
Proof.
  induction idxs as [|i idxs IH]; intros acc evs Hin;
    cbn [ingest_files] in Hin.
  - injection Hin as <-. done.
  - destruct (files !! i) as [f|] eqn:Hf; [| discriminate].
    destruct (tf_numLocales f =? n) eqn:En; [| discriminate].
    destruct (ingest_records n (tf_records f) acc) as [err | acc1] eqn:Hrec;
      [discriminate |].
    apply ingest_records_ret in Hrec as [-> Hall].
    apply IH in Hin as [-> Hrest].
    split.
    + unfold all_records. cbn [fmap list_fmap concat]. rewrite Hf.
      by rewrite merge_events_app.
    + constructor; [| done]. exists f. split; [done |].
      split; [by apply Z.eqb_eq |].
      eapply Forall_impl; [exact Hall |].
      intros r (e & -> & _). by eexists.
Qed.

Section Merger.

(** Clock times compare as a strict weak order: [<] is asymmetric, and a
    time that is neither above [x] nor below [z] leaves [x < z] no room. *)
Hypothesis dlt_asym : forall x y, dlt x y = true -> dlt y x = false.
Hypothesis dlt_negtrans : forall x y z,
  dlt x z = true -> dlt x y = true \/ dlt y z = true.

Lemma event_le_trans (a b c : Event) :
  event_le a b = true -> event_le b c = true -> event_le a c = true.
Proof using dlt_asym dlt_negtrans.
  rewrite !event_le_spec.
  intros [Hab | [Hba Kab]] [Hbc | [Hcb Kbc]].
  - left. destruct (dlt_negtrans _ (clock_time c) _ Hab) as [H | H];
      [done |]. apply dlt_asym in Hbc. congruence.
  - left. destruct (dlt_negtrans _ (clock_time c) _ Hab) as [H | H];
      [done | congruence].
  - left. destruct (dlt_negtrans _ (clock_time a) _ Hbc) as [H | H];
      [congruence | done].
  - right. split; [| lia].
    destruct (dlt (clock_time c) (clock_time a)) eqn:Hca; [| done].
    destruct (dlt_negtrans _ (clock_time b) _ Hca); congruence.
Qed.

Lemma event_le_antisym (a b : Event) :
  event_le a b = true -> event_le b a = true -> event_key a = event_key b.
Proof using dlt_asym dlt_negtrans.
  rewrite !event_le_spec. unfold event_key.
  intros [Hab | [Hba Kab]] [Hba' | [Hab' Kba]].
  - apply dlt_asym in Hab. congruence.
  - congruence.
  - congruence.
  - f_equal; lia.
Qed.

Lemma insert_event_sorted (e : Event) (l : list Event) :
  StronglySorted event_ord l -> StronglySorted event_ord (insert_event e l).
Proof using dlt_asym dlt_negtrans.
  induction 1 as [|x l Hl IH Hx]; cbn [insert_event].
  - repeat constructor.
  - destruct (event_le e x) eqn:Hex.
    + constructor; [by constructor |].
      constructor; [done |].
      eapply Forall_impl; [exact Hx |].
      intros y Hxy. by apply (event_le_trans e x y).
    + constructor; [done |].
      rewrite insert_event_perm. constructor; [| done].
      by apply event_le_total.
Qed.

Lemma merge_events_sorted (records : list Event) : forall acc,
  StronglySorted event_ord acc ->
  StronglySorted event_ord (merge_events records acc).
Proof using dlt_asym dlt_negtrans.
  unfold merge_events.
  induction records as [|e records IH]; intros acc Hacc; cbn [foldl];
    [done |].
  by apply IH, insert_event_sorted.
Qed.

Lemma StronglySorted_lookup_lt {A} (R : relation A) (l : list A) :
  StronglySorted R l ->
  forall (i j : nat) a b, (i < j)%nat -> l !! i = Some a -> l !! j = Some b ->
  R a b.
Proof.
  induction 1 as [|x l Hl IH Hx]; intros i j a b Hij Hi Hj; [done |].
  destruct j as [|j]; [lia |]. cbn in Hj.
  destruct i as [|i]; cbn in Hi.
  - injection Hi as <-. rewrite Forall_forall in Hx.
    apply Hx. by eapply list_elem_of_lookup_2.
  - apply (IH i j); [lia | done | done].
Qed.

(** The merged list does not depend on the order in which the records
    arrive, as long as no two of them share locale and sequence number. *)
Lemma merge_events_canonical (r1 r2 : list Event) :
  r1 ≡ₚ r2 -> NoDup (event_key <$> r1) ->
  merge_events r1 [] = merge_events r2 [].
Proof using dlt_asym dlt_negtrans.
  intros Hperm Hkeys.
  apply (StronglySorted_unique_strong event_ord).
  - intros x1 x2 Hx1 Hx2 H12 H21.
    rewrite merge_events_perm, app_nil_r in Hx1.
    rewrite merge_events_perm, app_nil_r, <- Hperm in Hx2.
    pose proof (event_le_antisym x1 x2 H12 H21) as Hk.
    apply list_elem_of_lookup in Hx1 as [i1 Hi1].
    apply list_elem_of_lookup in Hx2 as [i2 Hi2].
    assert (i1 = i2) as ->; [| congruence].
    apply (NoDup_lookup _ i1 i2 (event_key x1) Hkeys).
    + by rewrite list_lookup_fmap, Hi1.
    + by rewrite list_lookup_fmap, Hi2, Hk.
  - apply merge_events_sorted. constructor.
  - apply merge_events_sorted. constructor.
  - by rewrite !merge_events_perm, !app_nil_r.
Qed.

(** C4. A successful load leaves the events of the files of all locales,
    no more and no fewer, in one list in which clock times never decrease
    and, where two clock times tie, the locale id and then the sequence
    number decide.  That list is the same in whatever order the records
    are met, so that two loads of equal files give equal models, hence
    equal values of any statistic computed from the model. *)
Theorem load_order_deterministic (m : DataModel)
    (h : gmap positive tagData) (files : gmap Z TraceFile) :
  (forall m' h', LoadData m h files = (1, m', h') ->
     theEvents m' ≡ₚ all_records files (seqZ 0 (numLocales m'))
     /\ StronglySorted event_ord (theEvents m')
     /\ (forall (i j : nat) a b, (i < j)%nat ->
           theEvents m' !! i = Some a -> theEvents m' !! j = Some b ->
           dlt (clock_time b) (clock_time a) = false
           /\ (dlt (clock_time a) (clock_time b) = false ->
               nodeId a < nodeId b
               \/ (nodeId a = nodeId b /\ seqNo a <= seqNo b)))
     /\ (forall records, records ≡ₚ all_records files (seqZ 0 (numLocales m')) ->
           NoDup (event_key <$> records) ->
           theEvents m' = merge_events records []))
  /\ (forall files' (S : Type) (stats : Z * DataModel * gmap positive tagData -> S),
        files' = files ->
        LoadData m h files' = LoadData m h files
        /\ stats (LoadData m h files') = stats (LoadData m h files)).
Proof using dlt_asym dlt_negtrans.
  split; [| by intros files' S stats ->].
  intros m' h' Hload. unfold LoadData in Hload.
  destruct (load_events files) as [err | [n evs]] eqn:Hev; [discriminate |].
  destruct (discover_tags evs) as [names |]; [| discriminate].
  destruct (new_tags (length names + 2) n h) as [[tl h1] | f];
    [| discriminate].
  destruct (if (register_tags names).1 then Ret ([], h1)
            else new_tags (size (register_tags names).2) n h1)
    as [[ul h2] | f]; [| discriminate].
  injection Hload as <- <-. cbn [theEvents numLocales].
  unfold load_events in Hev.
  destruct (files !! 0) as [f0|]; [| discriminate].
  destruct (ingest_files (tf_numLocales f0) (seqZ 0 (tf_numLocales f0))
              files []) as [err | evs0] eqn:Hin; [discriminate |].
  injection Hev as <- <-.
  apply ingest_files_ret in Hin as [-> _].
  set (recs := all_records files (seqZ 0 (tf_numLocales f0))).
  assert (Hsorted : StronglySorted event_ord (merge_events recs [])).
  { apply merge_events_sorted. constructor. }
  split; [by rewrite merge_events_perm, app_nil_r |].
  split; [done |]. split.
  - intros i j a b Hij Hi Hj.
    pose proof (StronglySorted_lookup_lt _ _ Hsorted i j a b Hij Hi Hj)
      as Hab.
    apply event_le_spec in Hab as [Hab | [Hba Hk]].
    + split; [by apply dlt_asym | congruence].
    + done.
  - intros records Hperm Hkeys. symmetry.
    by apply merge_events_canonical.
Qed.

End Merger.

(** * Further properties of the header's code *)

(** ** Tag entries: construction and destruction *)

Lemma index_ret {A} (p : aptr A) (i : Z) (a : A) :
  index p i = Ret a ->
  exists l, p = Arr l /\ 0 <= i /\ l !! Z.to_nat i = Some a.
Proof.
  destruct p as [| |l]; cbn [index]; [discriminate | discriminate |].
  destruct (decide (0 <= i)); [| discriminate].
  destruct (l !! Z.to_nat i) as [a'|] eqn:Hl; [| discriminate].
  intros Heq. injection Heq as <-. by exists l.
Qed.

Lemma store_ret {A} (p p' : aptr A) (i : Z) (a : A) :
  store p i a = Ret p' ->
  exists l, p = Arr l /\ 0 <= i < Z.of_nat (length l)
    /\ p' = Arr (<[Z.to_nat i := a]> l).
Proof.
  destruct p as [| |l]; cbn [store]; [discriminate | discriminate |].
  destruct (decide (0 <= i < Z.of_nat (length l))); [| discriminate].
  intros Heq. injection Heq as <-. by exists l.
Qed.

(** The loop of the destructor runs through when the rows ahead of it
    are there and none of them is indeterminate. *)
Lemma tagData_free_rows_ok (k : nat) : forall (fuel : nat) (n i : Z)
    (rows : list (aptr commData)),
  (k <= fuel)%nat -> 0 <= i -> i + Z.of_nat k = n -> n <= INT_MAX ->
  n <= Z.of_nat (length rows) ->
  (forall j, i <= j < n ->
     exists r, rows !! Z.to_nat j = Some r /\ r <> Wild) ->
  exists rows', tagData_free_rows fuel n i (Arr rows) = Ret (Arr rows').
Proof.
  induction k as [|k IH]; intros fuel n i rows Hfuel Hi Hk Hmax Hlen Hrows.
  - exists rows. destruct fuel; cbn [tagData_free_rows];
      by rewrite decide_False by lia.
  - destruct fuel as [|fuel]; [lia |].
    cbn [tagData_free_rows]. rewrite decide_True by lia.
    destruct (Hrows i) as (r & Hr & Hwild); [lia |].
    rewrite (index_Arr rows i r) by done. cbn [bind].
    destruct r as [| |cells]; [done | |]; cbn [delete_array bind].
    all: unfold store; rewrite decide_True by lia; cbn [bind].
    all: unfold int_add;
      rewrite decide_True by (unfold INT_MIN, INT_MAX in *; lia);
      cbn [bind].
    all: apply IH; [lia | lia | lia | done
                   | rewrite length_insert; lia |].
    all: intros j Hj; rewrite list_lookup_insert_ne by lia;
      apply Hrows; lia.
Qed.

(** Conversely a loop that has run through found every row ahead of
    it, and none indeterminate. *)
Lemma tagData_free_rows_ret (fuel : nat) : forall (n i : Z)
    (comms comms' : aptr (aptr commData)),
  0 <= i -> i < n ->
  tagData_free_rows fuel n i comms = Ret comms' ->
  n <= INT_MAX
  /\ comms' <> Wild
  /\ exists rows,
      comms = Arr rows
      /\ n <= Z.of_nat (length rows)
      /\ forall j, i <= j < n ->
           exists r, rows !! Z.to_nat j = Some r /\ r <> Wild.
Proof.
  induction fuel as [|fuel IH]; intros n i comms comms' Hi Hlt Hrun;
    cbn [tagData_free_rows] in Hrun; rewrite decide_True in Hrun by done.
  - discriminate.
  - apply bind_ret in Hrun as (row & Hrow & Hrun).
    apply bind_ret in Hrun as (u & Hdel & Hrun).
    apply bind_ret in Hrun as (comms1 & Hst & Hrun).
    apply bind_ret in Hrun as (i' & Hi' & Hrun).
    apply int_add_ret in Hi' as [-> Hi'].
    apply index_ret in Hrow as (rows & -> & _ & Hrow).
    apply store_ret in Hst as (rows0 & Heq & Hb & ->).
    injection Heq as <-.
    assert (Hnw : row <> Wild) by (intros ->; discriminate).
    destruct (decide (i + 1 < n)) as [Hnext | Hlast].
    + apply IH in Hrun as (Hmax & Hc' & rows1 & Heq & Hlen & Hrest);
        [| lia | done].
      injection Heq as <-. rewrite length_insert in Hlen.
      split; [done |]. split; [done |].
      exists rows. split; [done |]. split; [done |].
      intros j Hj. destruct (decide (j = i)) as [-> | Hne]; [by exists row |].
      destruct (Hrest j) as (r & Hr & Hw); [lia |].
      rewrite list_lookup_insert_ne in Hr by lia. by exists r.
    + destruct fuel; cbn [tagData_free_rows] in Hrun;
        rewrite decide_False in Hrun by done; injection Hrun as <-.
      all: split; [lia |]; split; [done |].
      all: exists rows; split; [done |]; split; [lia |].
      all: intros j Hj; assert (j = i) as -> by lia; by exists row.
Qed.

(** X4. [~tagData] returns exactly on the entries whose [locales]
    pointer is not indeterminate and whose [comms] array has, for each of
    the [numLocales] locales, a row that is not indeterminate (with no
    locale, a [comms] pointer that is not indeterminate); on any other
    entry it deletes through a bad pointer, reads past the array or
    overflows its counter. *)
Theorem tagData_dtor_destructible (td : tagData) :
  tagData_dtor td = Ret tt <-> tagData_destructible td.
Proof.
  unfold tagData_dtor, tagData_destructible. split.
  - intros Hrun.
    apply bind_ret in Hrun as (u & Hloc & Hrun).
    apply bind_ret in Hrun as (comms' & Hloop & Hdel).
    split; [intros Hw; rewrite Hw in Hloc; discriminate |].
    split.
    + intros Hn Hw. rewrite Hw in Hloop.
      destruct (Z.to_nat (td_numLocales td));
        cbn [tagData_free_rows] in Hloop;
        rewrite decide_False in Hloop by lia; injection Hloop as <-;
        discriminate.
    + intros Hn.
      apply tagData_free_rows_ret in Hloop as (Hmax & _ & rows & Hc & Hlen & Hr);
        [| done | done].
      split; [done |]. exists rows. split; [done |]. split; [done |].
      intros j Hj. apply Hr. lia.
  - intros (Hloc & Hneg & Hpos).
    assert (Hl : delete_array (locales td) = Ret tt).
    { by destruct (locales td). }
    rewrite Hl. cbn [bind].
    destruct (decide (0 < td_numLocales td)) as [Hn | Hn].
    + destruct (Hpos Hn) as (Hmax & rows & Hc & Hlen & Hr). rewrite Hc.
      destruct (tagData_free_rows_ok (Z.to_nat (td_numLocales td))
                  (Z.to_nat (td_numLocales td)) (td_numLocales td) 0 rows)
        as [rows' ->]; [lia | lia | lia | done | done | | done].
      intros j Hj. apply Hr. lia.
    + assert (Hloop : tagData_free_rows (Z.to_nat (td_numLocales td))
                        (td_numLocales td) 0 (comms td) = Ret (comms td)).
      { destruct (Z.to_nat (td_numLocales td)); cbn [tagData_free_rows];
          by rewrite decide_False by lia. }
      rewrite Hloop. cbn [bind].
      destruct (comms td) eqn:Hc; [| done | done].
      exfalso. apply Hneg; [lia | done].
Qed.

(** X1. Besides the communication matrix, an entry constructed over
    [n] locales has one statistics record per locale, each with every
    time and counter at zero and no task, an empty name, and its six
    running maxima at zero. *)
Theorem tagData_ctor_locales (n : Z) (td : tagData) :
  tagData_ctor n = Ret td ->
  td_name td = ""%string
  /\ maxCpu td = dzero /\ maxClock td = dzero /\ maxTasks td = 0
  /\ td_maxConc td = 0 /\ maxComms td = 0 /\ maxSize td = 0
  /\ exists ls,
      locales td = Arr ls
      /\ Z.of_nat (length ls) = n
      /\ forall i, 0 <= i < n ->
           exists l, index (locales td) i = Ret l
             /\ userCpu l = dzero /\ sysCpu l = dzero /\ Cpu l = dzero
             /\ refUserCpu l = dzero /\ refSysCpu l = dzero
             /\ clockTime l = dzero /\ refTime l = dzero
             /\ maxTaskClock l = dzero
             /\ numTasks l = 0 /\ runConc l = 0 /\ maxConc l = 0
             /\ tasks l = ∅.
Proof.
  intros Hctor.
  pose proof (tagData_ctor_range n td Hctor) as Hn.
  rewrite (tagData_ctor_ret n Hn) in Hctor. injection Hctor as <-.
  cbn [td_name maxCpu maxClock maxTasks td_maxConc maxComms maxSize locales].
  repeat (split; [reflexivity |]).
  eexists. split; [reflexivity |].
  split; [rewrite length_replicate; lia |].
  intros i Hi. exists localeData_ctor. split; [| done].
  apply index_Arr; [lia |]. apply lookup_replicate_2. lia.
Qed.

(** X2. Every entry the constructor returns can be destroyed: run on
    it, [~tagData] deletes [numLocales] rows, all of them allocated, and
    returns. *)
Theorem tagData_ctor_dtor (n : Z) (td : tagData) :
  tagData_ctor n = Ret td -> tagData_dtor td = Ret tt.
Proof.
  intros Hctor.
  pose proof (tagData_ctor_range n td Hctor) as Hn.
  rewrite (tagData_ctor_ret n Hn) in Hctor. injection Hctor as <-.
  unfold tagData_dtor. cbn [locales comms td_numLocales delete_array bind].
  destruct (tagData_free_rows_ok (Z.to_nat n) (Z.to_nat n) n 0
              (replicate (Z.to_nat n)
                 (Arr (replicate (Z.to_nat n) commData_ctor))))
    as [rows' ->]; [lia | lia | lia | lia | | | done].
  - rewrite length_replicate. lia.
  - intros j Hj. eexists. split; [apply lookup_replicate_2; lia | done].
Qed.

(** With more locales than an [int] counts, the loop of the constructor
    stops at the overflow of its counter. *)
Lemma tagData_rows_overflows (k : nat) : forall (fuel : nat) (n i : Z)
    (rows : list (aptr commData)),
  (k < fuel)%nat -> 0 <= i -> i + Z.of_nat k = INT_MAX -> INT_MAX < n ->
  Z.of_nat (length rows) = n ->
  tagData_rows fuel n i (Arr rows) = Fault Overflow.
Proof.
  induction k as [|k IH]; intros fuel n i rows Hfuel Hi Hk Hn Hlen;
    (destruct fuel as [|fuel]; [lia |]);
    cbn [tagData_rows]; rewrite decide_True by lia;
    unfold new_array; rewrite decide_True by (unfold INT_MAX in *; lia);
    cbn [bind]; unfold store; rewrite decide_True by lia; cbn [bind];
    unfold int_add.
  - by rewrite decide_False by lia.
  - rewrite decide_True by (unfold INT_MIN, INT_MAX in *; lia). cbn [bind].
    apply IH; [lia | lia | lia | done | by rewrite length_insert].
Qed.

(** X3. The constructor returns no entry outside the counts
    [0 .. INT_MAX]: for a negative count the first [new []] fails, and
    for a count above [INT_MAX] the [int] counter of the row loop, which
    is compared with the [long] count, overflows before the loop is
    left. *)
Theorem tagData_ctor_failures (n : Z) :
  (n < 0 -> tagData_ctor n = Fault BadArrayNew)
  /\ (INT_MAX < n -> tagData_ctor n = Fault Overflow).
Proof.
  split; intros Hn; unfold tagData_ctor, new_array.
  - by rewrite decide_False by lia.
  - rewrite !decide_True by (unfold INT_MAX in *; lia). cbn [bind].
    rewrite (tagData_rows_overflows (Z.to_nat INT_MAX)); [done | | done | | done |].
    + unfold INT_MAX in *. lia.
    + unfold INT_MAX. lia.
    + rewrite length_replicate. unfold INT_MAX in *. lia.
Qed.

(** ** The destructor of the model *)

Lemma addrs_app (l1 l2 : list ptr) : addrs (l1 ++ l2) = addrs l1 ++ addrs l2.
Proof.
  induction l1 as [|[|a] l1 IH]; cbn [addrs app]; [done | done |].
  by rewrite IH.
Qed.

Lemma delete_all_app (l1 l2 : list ptr) : forall h,
  delete_all h (l1 ++ l2) = (h' <- delete_all h l1 ;; delete_all h' l2).
Proof.
  induction l1 as [|p l1 IH]; intros h; cbn [delete_all app bind]; [done |].
  destruct (delete_ptr h p) as [h1|f]; cbn [bind]; [apply IH | done].
Qed.

(** Deleting a list of pointers returns only if the objects are live,
    destructible and all different, and then retires them and nothing
    else. *)
Lemma delete_all_ret (ps : list ptr) : forall h h',
  delete_all h ps = Ret h' ->
  NoDup (addrs ps)
  /\ (forall a, a ∈ addrs ps ->
        exists td, h !! a = Some td /\ tagData_dtor td = Ret tt)
  /\ (forall a, h' !! a = if decide (a ∈ addrs ps) then None else h !! a).
Proof.
  induction ps as [|[|a] ps IH]; intros h h' Hrun; cbn [delete_all] in Hrun.
  - injection Hrun as <-. cbn [addrs].
    split; [constructor |]. split; [intros a Ha; by apply elem_of_nil in Ha |].
    intros a. rewrite decide_False; [done | apply not_elem_of_nil].
  - cbn [delete_ptr bind] in Hrun. cbn [addrs]. by apply IH.
  - apply bind_ret in Hrun as (h1 & Hdel & Hrun).
    cbn [delete_ptr] in Hdel.
    destruct (h !! a) as [td|] eqn:Ha; [| discriminate].
    apply bind_ret in Hdel as ([] & Htd & Heq). injection Heq as <-.
    apply IH in Hrun as (Hnd & Hlive & Heff). cbn [addrs].
    assert (Hfresh : a ∉ addrs ps).
    { intros Hin. destruct (Hlive a Hin) as (td' & Hl & _).
      by rewrite lookup_delete_eq in Hl. }
    split; [by constructor |]. split.
    + intros b Hb. apply elem_of_cons in Hb as [-> | Hb]; [by exists td |].
      destruct (Hlive b Hb) as (td' & Hl & Hd).
      apply lookup_delete_Some in Hl as [_ Hl]. by exists td'.
    + intros b. rewrite Heff.
      destruct (decide (b = a)) as [-> | Hne].
      * rewrite decide_False by done.
        rewrite decide_True by (apply elem_of_cons; by left).
        apply lookup_delete_eq.
      * destruct (decide (b ∈ addrs ps)) as [Hb | Hb].
        -- by rewrite decide_True by (apply elem_of_cons; by right).
        -- rewrite decide_False; [by apply lookup_delete_ne |].
           intros Hin. apply elem_of_cons in Hin as [-> | Hin]; done.
Qed.

Lemma delete_all_ok (ps : list ptr) : forall h,
  NoDup (addrs ps) ->
  (forall a, a ∈ addrs ps ->
     exists td, h !! a = Some td /\ tagData_dtor td = Ret tt) ->
  exists h', delete_all h ps = Ret h'.
Proof.
  induction ps as [|[|a] ps IH]; intros h Hnd Hlive; cbn [delete_all].
  - by exists h.
  - cbn [delete_ptr bind]. by apply IH.
  - cbn [addrs] in Hnd, Hlive. apply NoDup_cons in Hnd as [Hfresh Hnd].
    destruct (Hlive a) as (td & Ha & Htd); [apply elem_of_cons; by left |].
    cbn [delete_ptr]. rewrite Ha, Htd. cbn [bind].
    apply IH; [done |].
    intros b Hb. destruct (Hlive b) as (td' & Hl & Hd).
    { apply elem_of_cons. by right. }
    exists td'. split; [| done].
    rewrite lookup_delete_ne; [done |]. intros ->. done.
Qed.

(** The first loop is the deletion, in order, of the positions from
    [ix] to [numTags + 2] of the tag array. *)
Lemma dtor_tags_list (k : nat) : forall (fuel : nat) (m : DataModel)
    (ix : Z) (h : gmap positive tagData) (tl : list ptr),
  tagList m = Arr tl ->
  INT_MIN <= numTags m + 2 <= INT_MAX ->
  numTags m + 2 <= Z.of_nat (length tl) ->
  0 <= ix -> numTags m + 2 - ix <= Z.of_nat k -> (k <= fuel)%nat ->
  dtor_tags fuel m ix h
  = delete_all h (drop (Z.to_nat ix) (take (Z.to_nat (numTags m + 2)) tl)).
Proof.
  induction k as [|k IH]; intros fuel m ix h tl Htl Hint Hlen Hix Hk Hfuel.
  - rewrite drop_ge by (rewrite length_take; lia).
    destruct fuel; cbn [dtor_tags delete_all]; unfold int_add;
      rewrite decide_True by done; cbn [bind];
      by rewrite decide_False by lia.
  - destruct (decide (ix < numTags m + 2)) as [Hlt | Hge].
    2:{ rewrite drop_ge by (rewrite length_take; lia).
        destruct fuel; cbn [dtor_tags delete_all]; unfold int_add;
          rewrite decide_True by done; cbn [bind];
          by rewrite decide_False by lia. }
    destruct fuel as [|fuel]; [lia |].
    cbn [dtor_tags]. unfold int_add at 1.
    rewrite decide_True by done. cbn [bind].
    rewrite decide_True by done.
    destruct (lookup_lt_is_Some_2 tl (Z.to_nat ix)) as [p Hp]; [lia |].
    rewrite Htl, (index_Arr tl ix p) by done. cbn [bind].
    rewrite (drop_S _ p (Z.to_nat ix))
      by (rewrite lookup_take_lt by lia; done).
    cbn [delete_all].
    destruct (delete_ptr h p) as [h1|f]; cbn [bind]; [| done].
    unfold int_add. rewrite decide_True by (unfold INT_MIN in *; lia).
    cbn [bind]. rewrite (IH fuel m (ix + 1) h1 tl) by (done || lia).
    do 2 f_equal. lia.
Qed.

(** The second loop is the deletion, in order, of the positions from
    [ix] to [name2tag.size()] of the secondary list, when that many names
    leave the counter short of wrapping. *)
Lemma dtor_utags_list (k : nat) : forall (fuel : nat) (m : DataModel)
    (ix : Z) (h : gmap positive tagData) (ul : list ptr),
  utagList m = Arr ul ->
  (size (name2tag m) <= length ul)%nat ->
  Z.of_nat (size (name2tag m)) < 2 ^ 32 ->
  0 <= ix -> Z.of_nat (size (name2tag m)) - ix <= Z.of_nat k ->
  (k <= fuel)%nat ->
  dtor_utags fuel m ix h
  = delete_all h (drop (Z.to_nat ix) (take (size (name2tag m)) ul)).
Proof.
  induction k as [|k IH]; intros fuel m ix h ul Hul Hlen H32 Hix Hk Hfuel.
  - rewrite drop_ge by (rewrite length_take; lia).
    destruct fuel; cbn [dtor_utags delete_all];
      by rewrite decide_False by lia.
  - destruct (decide (ix < Z.of_nat (size (name2tag m)))) as [Hlt | Hge].
    2:{ rewrite drop_ge by (rewrite length_take; lia).
        destruct fuel; cbn [dtor_utags delete_all];
          by rewrite decide_False by lia. }
    destruct fuel as [|fuel]; [lia |].
    cbn [dtor_utags]. rewrite decide_True by done.
    destruct (lookup_lt_is_Some_2 ul (Z.to_nat ix)) as [p Hp]; [lia |].
    rewrite Hul, (index_Arr ul ix p) by done. cbn [bind].
    rewrite (drop_S _ p (Z.to_nat ix))
      by (rewrite lookup_take_lt by lia; done).
    cbn [delete_all].
    destruct (delete_ptr h p) as [h1|f]; cbn [bind]; [| done].
    rewrite Z.mod_small by lia.
    rewrite (IH fuel m (ix + 1) h1 ul) by (done || lia).
    do 2 f_equal. lia.
Qed.

(** A first loop that returns had an [int] bound and found every
    position up to it in the array. *)
Lemma dtor_tags_shape (fuel : nat) : forall (m : DataModel) (ix : Z)
    (h h' : gmap positive tagData),
  0 <= ix -> dtor_tags fuel m ix h = Ret h' ->
  INT_MIN <= numTags m + 2 <= INT_MAX
  /\ (ix < numTags m + 2 ->
      exists tl, tagList m = Arr tl
        /\ numTags m + 2 <= Z.of_nat (length tl)).
Proof.
  induction fuel as [|fuel IH]; intros m ix h h' Hix Hrun;
    cbn [dtor_tags] in Hrun;
    apply bind_ret in Hrun as (bound & Hbound & Hrun);
    apply int_add_ret in Hbound as [-> Hbound];
    (split; [done |]); intros Hlt; rewrite decide_True in Hrun by done.
  - discriminate.
  - apply bind_ret in Hrun as (p & Hp & Hrun).
    apply bind_ret in Hrun as (h1 & _ & Hrun).
    apply bind_ret in Hrun as (ix' & Hix' & Hrun).
    apply int_add_ret in Hix' as [-> _].
    apply index_ret in Hp as (tl & Htl & _ & Hp).
    apply lookup_lt_Some in Hp.
    exists tl. split; [done |].
    destruct (decide (ix + 1 < numTags m + 2)) as [Hnext | Hlast]; [| lia].
    apply IH in Hrun as [_ Hrest]; [| lia].
    destruct (Hrest Hnext) as (tl' & Htl' & Hlen). congruence.
Qed.

(** A second loop that returns found every position up to the number
    of names in the list, and that number short of 2^32. *)
Lemma dtor_utags_shape (fuel : nat) : forall (m : DataModel) (ix : Z)
    (h h' : gmap positive tagData),
  0 <= ix < 2 ^ 32 -> dtor_utags fuel m ix h = Ret h' ->
  ix < Z.of_nat (size (name2tag m)) ->
  Z.of_nat (size (name2tag m)) < 2 ^ 32
  /\ exists ul, utagList m = Arr ul
       /\ (size (name2tag m) <= length ul)%nat.
Proof.
  induction fuel as [|fuel IH]; intros m ix h h' Hix Hrun Hlt;
    cbn [dtor_utags] in Hrun; rewrite decide_True in Hrun by done.
  - discriminate.
  - apply bind_ret in Hrun as (p & Hp & Hrun).
    apply bind_ret in Hrun as (h1 & _ & Hrun).
    apply index_ret in Hp as (ul & Hul & _ & Hp).
    apply lookup_lt_Some in Hp.
    destruct (decide (ix + 1 = 2 ^ 32)) as [Hwrap | Hnowrap].
    + rewrite Hwrap, Z.mod_same in Hrun by lia.
      apply IH in Hrun as [H32 _]; lia.
    + rewrite Z.mod_small in Hrun by lia.
      destruct (decide (ix + 1 < Z.of_nat (size (name2tag m))))
        as [Hnext | Hlast].
      * apply IH in Hrun as [H32 (ul' & Hul' & Hlen)]; [| lia | done].
        split; [done |]. exists ul. split; [done |]. congruence.
      * split; [lia |]. exists ul. split; [done | lia].
Qed.

Lemma not_null_ret {A} (p : aptr A) (b : bool) :
  not_null p = Ret b ->
  p <> Wild /\ (b = true <-> exists l, p = Arr l).
Proof.
  destruct p as [| |l]; cbn [not_null]; [discriminate | |];
    intros Heq; injection Heq as <-; (split; [done |]); split;
    try done; [intros [l Hl]; discriminate | by exists l].
Qed.

Lemma DataModel_dtor_shape (m : DataModel) (h h' : gmap positive tagData) :
  DataModel_dtor m h = Ret h' -> dtor_shape m.
Proof.
  unfold DataModel_dtor, dtor_shape. intros Hrun.
  apply bind_ret in Hrun as (t1 & Ht1 & Hrun).
  apply bind_ret in Hrun as (h1 & Hh1 & Hrun).
  apply bind_ret in Hrun as (t2 & Ht2 & Hrun).
  apply bind_ret in Hrun as (u & _ & Hrun).
  apply bind_ret in Hrun as (t3 & Ht3 & Hrun).
  apply not_null_ret in Ht1 as [Hw1 Hb1].
  apply not_null_ret in Ht2 as [Hw2 _].
  apply not_null_ret in Ht3 as [Hw3 Hb3].
  repeat (split; [done |]). split.
  - intros tl Htl.
    assert (t1 = true) as -> by (apply Hb1; by exists tl).
    apply bind_ret in Hh1 as (h0 & Hloop & _).
    apply dtor_tags_shape in Hloop as [Hint Hlen]; [| done].
    split; [done |].
    destruct (decide (0 < numTags m + 2)) as [Hpos | Hneg]; [| lia].
    destruct (Hlen Hpos) as (tl' & Htl' & Hl). congruence.
  - intros ul Hul.
    assert (t3 = true) as -> by (apply Hb3; by exists ul).
    apply bind_ret in Hrun as (h2 & Hloop & _).
    destruct (decide (0 < Z.of_nat (size (name2tag m)))) as [Hpos | Hneg].
    2:{ split; lia. }
    apply dtor_utags_shape in Hloop as [H32 (ul' & Hul' & Hl)];
      [| lia | done].
    split; [congruence | done].
Qed.

Lemma DataModel_dtor_list (m : DataModel) (h : gmap positive tagData) :
  dtor_shape m -> DataModel_dtor m h = delete_all h (dtor_ptrs m).
Proof.
  intros (Hw1 & Hw2 & Hw3 & Htags & Hutags).
  unfold DataModel_dtor, dtor_ptrs. rewrite delete_all_app.
  assert (Hmid : forall h1 : gmap positive tagData,
    (t <- not_null (taskTimeline m) ;;
     _ <- (if t : bool then delete_array (taskTimeline m) else Ret tt) ;;
     t <- not_null (utagList m) ;;
     if t : bool then
       h2 <- dtor_utags (size (name2tag m)) m 0 h1 ;;
       _ <- delete_array (utagList m) ;; Ret h2
     else Ret h1)
    = delete_all h1 match utagList m with
                    | Arr ul => take (size (name2tag m)) ul
                    | _ => []
                    end).
  { intros h1.
    destruct (taskTimeline m) as [| |tt'] eqn:Htt; [done | |];
      cbn [not_null delete_array bind].
    all: destruct (utagList m) as [| |ul] eqn:Hul; [done | done |];
      cbn [not_null delete_array bind].
    all: destruct (Hutags ul eq_refl) as [Hlen H32].
    all: rewrite (dtor_utags_list (size (name2tag m)) _ m 0 h1 ul)
      by (done || lia).
    all: rewrite drop_0.
    all: by destruct (delete_all h1 (take (size (name2tag m)) ul)). }
  destruct (tagList m) as [| |tl] eqn:Htl; [done | |];
    cbn [not_null delete_array delete_all bind]; [apply Hmid |].
  destruct (Htags tl eq_refl) as [Hint Hlen].
  rewrite (dtor_tags_list (Z.to_nat (numTags m + 2)) _ m 0 h tl)
    by (done || lia).
  rewrite drop_0.
  destruct (delete_all h (take (Z.to_nat (numTags m + 2)) tl)) as [h1|f];
    cbn [bind]; [apply Hmid | done].
Qed.

Lemma elem_of_addrs (ps : list ptr) (a : positive) :
  a ∈ addrs ps <-> Addr a ∈ ps.
Proof.
  induction ps as [|[|b] ps IH]; cbn [addrs].
  - by rewrite !elem_of_nil.
  - rewrite elem_of_cons, IH. split; [by right | by intros [? | ?]].
  - rewrite !elem_of_cons, IH. split.
    + intros [-> | ?]; [by left | by right].
    + intros [Heq | ?]; [left; by injection Heq | by right].
Qed.

(** X5. [~DataModel] returns exactly when the three pointers it tests
    are determinate, the tag array has the [numTags + 2] positions and
    the secondary list the [name2tag.size()] positions the loops visit
    (within what an [int] and an [unsigned int] counter reach), and the
    objects found there are live, all different, within and across the
    two arrays, and each one [~tagData] returns on.  A null array is
    skipped whatever the counts are. *)
Theorem DataModel_dtor_returns_iff (m : DataModel)
    (h : gmap positive tagData) :
  (exists h', DataModel_dtor m h = Ret h') <->
  dtor_shape m
  /\ NoDup (addrs (dtor_ptrs m))
  /\ (forall a, a ∈ addrs (dtor_ptrs m) ->
        exists td, h !! a = Some td /\ tagData_dtor td = Ret tt).
Proof.
  split.
  - intros [h' Hrun].
    pose proof (DataModel_dtor_shape m h h' Hrun) as Hshape.
    rewrite (DataModel_dtor_list m h Hshape) in Hrun.
    apply delete_all_ret in Hrun as (Hnd & Hlive & _). done.
  - intros (Hshape & Hnd & Hlive).
    rewrite (DataModel_dtor_list m h Hshape). by apply delete_all_ok.
Qed.

(** X6. When [~DataModel] returns, the store it leaves is the store it
    found without the objects of the positions its two loops visit: each
    of them is retired, every other object is there unchanged. *)
Theorem DataModel_dtor_frees (m : DataModel) (h h' : gmap positive tagData) :
  DataModel_dtor m h = Ret h' ->
  (forall a, h' !! a
             = if decide (a ∈ addrs (dtor_ptrs m)) then None else h !! a)
  /\ h' ⊆ h
  /\ (forall a td, h !! a = Some td -> a ∉ addrs (dtor_ptrs m) ->
        h' !! a = Some td).
Proof.
  intros Hrun.
  pose proof (DataModel_dtor_shape m h h' Hrun) as Hshape.
  rewrite (DataModel_dtor_list m h Hshape) in Hrun.
  apply delete_all_ret in Hrun as (_ & _ & Heff).
  split; [done |]. split.
  - apply map_subseteq_spec. intros a td. rewrite Heff.
    by case_decide.
  - intros a td Ha Hout. rewrite Heff. by rewrite decide_False.
Qed.

Lemma to_int_le (u : Z) : 0 <= u -> to_int u <= u.
Proof.
  unfold to_int. intros Hu.
  pose proof (Z.mod_le (u + 2 ^ 31) (2 ^ 32)). lia.
Qed.

Lemma take_lookup_elem {A} (l : list A) (n : nat) (i : Z) (x : A) :
  0 <= i < Z.of_nat n -> l !! Z.to_nat i = Some x -> x ∈ take n l.
Proof.
  intros Hi Hl. apply (list_elem_of_lookup_2 _ (Z.to_nat i)).
  by rewrite lookup_take_lt by lia.
Qed.

(** X7. The objects the two accessors hand out are the model's own: on
    a model with a tag count that is not negative, whatever object
    [getTagData] or [getUTagData] returns for whatever id is live in
    every store [~DataModel] returns on, and retired by it. *)
Theorem accessors_return_owned (m : DataModel)
    (h h' : gmap positive tagData) (t : Z) (a : positive) :
  DataModel_dtor m h = Ret h' -> 0 <= numTags m ->
  getTagData m t = Ret (Addr a) \/ getUTagData m t = Ret (Addr a) ->
  is_Some (h !! a) /\ h' !! a = None.
Proof.
  intros Hrun Hnt Hget.
  assert (Hin : a ∈ addrs (dtor_ptrs m)).
  { apply elem_of_addrs. unfold dtor_ptrs. apply elem_of_app.
    destruct Hget as [Hget | Hget].
    - left. apply getTagData_Addr in Hget as [Hr Hidx].
      apply index_ret in Hidx as (tl & -> & _ & Hl).
      apply (take_lookup_elem _ _ (t - TagALL)); [| done].
      unfold TagALL in *. lia.
    - destruct (decide (t = TagALL)) as [-> | H1].
      { left. rewrite getUTagData_TagALL in Hget.
        apply index_ret in Hget as (tl & -> & _ & Hl).
        apply (take_lookup_elem _ _ 0); [lia | done]. }
      destruct (decide (t = TagStart)) as [-> | H2].
      { left. rewrite getUTagData_TagStart in Hget.
        apply index_ret in Hget as (tl & -> & _ & Hl).
        apply (take_lookup_elem _ _ 1); [lia | done]. }
      right. rewrite getUTagData_gate in Hget by done.
      case_decide as Hd; [| discriminate]. destruct Hd as [_ Hd].
      apply index_ret in Hget as (ul & -> & _ & Hl).
      apply (take_lookup_elem _ _ t); [| done].
      pose proof (to_int_le (Z.of_nat (size (name2tag m)))).
      unfold NumUTags in Hd. lia. }
  pose proof (DataModel_dtor_shape m h h' Hrun) as Hshape.
  rewrite (DataModel_dtor_list m h Hshape) in Hrun.
  apply delete_all_ret in Hrun as (_ & Hlive & Heff).
  split.
  - destruct (Hlive a Hin) as (td & Htd & _). by exists td.
  - rewrite Heff. by rewrite decide_True.
Qed.

(** X8. On a tag array of [numTags + 2] entries the objects
    [getTagData] can return are exactly those of the array: every entry
    that is not null is the answer for the id two below its position,
    and nothing else is ever returned. *)
Theorem getTagData_image (m : DataModel) (tl : list ptr) (a : positive) :
  tagList_sized m tl ->
  (exists t, getTagData m t = Ret (Addr a)) <-> a ∈ addrs tl.
Proof.
  intros (Htl & H0 & Hmax & Hlen). rewrite elem_of_addrs. split.
  - intros [t Hget]. apply getTagData_Addr in Hget as [_ Hidx].
    rewrite Htl in Hidx. apply index_ret in Hidx as (l & Heq & _ & Hl).
    injection Heq as <-. by eapply list_elem_of_lookup_2.
  - intros Hin. apply list_elem_of_lookup in Hin as [j Hj].
    pose proof (lookup_lt_Some _ _ _ Hj) as Hlt.
    exists (Z.of_nat j - 2).
    rewrite getTagData_inside by (unfold TagALL; lia).
    rewrite Htl. apply index_Arr; [lia |].
    by replace (Z.to_nat (Z.of_nat j - 2 + 2)) with j by lia.
Qed.

Lemma index_fault {A} (p : aptr A) (i : Z) (f : fault) :
  index p i = Fault f -> f = WildDeref \/ f = NullDeref \/ f = OutOfBounds.
Proof.
  destruct p as [| |l]; cbn [index].
  - intros Heq. injection Heq as <-. auto.
  - intros Heq. injection Heq as <-. auto.
  - destruct (decide (0 <= i)); [destruct (l !! Z.to_nat i) |];
      try discriminate; intros Heq; injection Heq as <-; auto.
Qed.

(** X9. For [int] arguments and an [int] tag count, the subtraction
    [tagno - TagALL] of [getTagData] overflows for one pair only: the
    id [INT_MAX - 1] on a model of [INT_MAX] tags. *)
Theorem getTagData_overflow (m : DataModel) (tagno : Z) :
  INT_MIN <= tagno <= INT_MAX -> INT_MIN <= numTags m <= INT_MAX ->
  getTagData m tagno = Fault Overflow
  <-> tagno = INT_MAX - 1 /\ numTags m = INT_MAX.
Proof.
  intros Ht Hn. unfold getTagData. rewrite Z.geb_leb.
  destruct (Z.ltb_spec tagno TagALL) as [Hlo | Hlo]; cbn [orb].
  { split; [discriminate |]. unfold TagALL, INT_MAX in *. lia. }
  destruct (Z.leb_spec (numTags m) tagno) as [Hhi | Hhi].
  { split; [discriminate | lia]. }
  unfold int_sub.
  destruct (decide (INT_MIN <= tagno - TagALL <= INT_MAX)) as [Hin | Hov];
    cbn [bind].
  - split.
    + intros Hf. apply index_fault in Hf as [? | [? | ?]]; discriminate.
    + unfold TagALL in *. lia.
  - split; [| done]. intros _. unfold TagALL, INT_MIN in *. lia.
Qed.

(** X10. [getUTagData] answers every integer id without a fault on a
    model whose tag array has its two sentinel entries and on which
    folding is in effect, whatever the secondary list is, or the
    secondary list has its [name2tag.size()] entries. *)
Theorem getUTagData_fault_free (m : DataModel) (tl : list ptr) (i : Z) :
  tagList m = Arr tl -> (2 <= length tl)%nat ->
  uniqueTags m = true \/ (exists ul, utagList_sized m ul) ->
  exists p, getUTagData m i = Ret p.
Proof.
  intros Htl Hlen Hfold.
  destruct (decide (i = TagALL)) as [-> | H1].
  { rewrite getUTagData_TagALL, Htl.
    destruct (index_fault_free tl 0) as (p & _ & Hp); [lia | by exists p]. }
  destruct (decide (i = TagStart)) as [-> | H2].
  { rewrite getUTagData_TagStart, Htl.
    destruct (index_fault_free tl 1) as (p & _ & Hp); [lia | by exists p]. }
  rewrite getUTagData_gate by done.
  case_decide as Hd; [| by exists NULL].
  destruct Hd as [Hu Hi].
  destruct Hfold as [Ht | (ul & Hul & Hl & Hmax)]; [congruence |].
  rewrite Hul.
  destruct (index_fault_free ul i) as (p & _ & Hp); [| by exists p].
  unfold NumUTags in Hi. rewrite to_int_small in Hi by lia. lia.
Qed.

(** ** The two file resolvers together *)

(** X11. [fileName] and [fileIsRel2Home] go together on every model and
    every id: one faults exactly when the other does, with the same
    fault, and when they return, either the id is out of range and they
    return "<unknown>" and false, or they return the name and the flag of
    one and the same entry of the table. *)
Theorem file_resolvers_agree (m : DataModel) (fileNo : Z) :
  (forall f, fileName m fileNo = Fault f <-> fileIsRel2Home m fileNo = Fault f)
  /\ (forall s b, fileName m fileNo = Ret s ->
        fileIsRel2Home m fileNo = Ret b ->
        (file_in_range m fileNo = Ret false
         /\ s = "<unknown>"%string /\ b = false)
        \/ (file_in_range m fileNo = Ret true
            /\ exists e, index (fileTbl m) fileNo = Ret e
                 /\ s = name e /\ b = rel2Home e)).
Proof.
  unfold fileName, fileIsRel2Home.
  destruct (file_in_range m fileNo) as [[|] | f0]; cbn [bind].
  - destruct (index (fileTbl m) fileNo) as [e | f1]; cbn [bind].
    + split; [intros f; split; discriminate |]. intros s b Hs Hb. right.
      injection Hs as <-. injection Hb as <-. split; [done |]. by exists e.
    + split; [| intros s b Hs; discriminate].
      intros f. split; intros Heq; injection Heq as <-; done.
  - split; [intros f; split; discriminate |]. intros s b Hs Hb. left.
    injection Hs as <-. injection Hb as <-. done.
  - split; [| intros s b Hs; discriminate].
    intros f. split; intros Heq; injection Heq as <-; done.
Qed.

End Model.

(** * Concrete instances *)

Lemma tagData_comms_square_witness :
  0 <= 2 <= INT_MAX
  /\ exists td : @tagData Z unit,
       tagData_ctor 0 2 = Ret td
       /\ td_numLocales td = 2
       /\ comms td = Arr [Arr [commData_ctor; commData_ctor];
                          Arr [commData_ctor; commData_ctor]].
Proof.
  assert (Hn : 0 <= 2 <= INT_MAX) by (unfold INT_MAX; lia).
  split; [exact Hn |].
  destruct (proj1 (tagData_comms_square (Event := unit) 0 2) Hn)
    as [td Htd].
  exists td. split; [exact Htd |].
  split; [exact (proj1 (proj2 (tagData_comms_square 0 2) td Htd)) |].
  vm_compute in Htd. injection Htd as <-. reflexivity.
Defined.

Lemma getTagData_range_checked_witness :
  tagList_sized
    (model_of (double := Z) (Event := unit)
       1 1 (Arr [Addr 1; Addr 2; Addr 3]) true ∅ Null [] Wild Unset)
    [Addr 1; Addr 2; Addr 3]
  /\ forall f,
      getTagData
        (model_of (double := Z) (Event := unit)
           1 1 (Arr [Addr 1; Addr 2; Addr 3]) true ∅ Null [] Wild Unset)
        0 <> Fault f.
Proof.
  assert (Hs : tagList_sized
    (model_of (double := Z) (Event := unit)
       1 1 (Arr [Addr 1; Addr 2; Addr 3]) true ∅ Null [] Wild Unset)
    [Addr 1; Addr 2; Addr 3]).
  { unfold tagList_sized, INT_MAX. simpl. repeat split; lia. }
  split; [exact Hs |].
  exact (proj2 (proj2 (getTagData_range_checked _ 0) _ Hs)).
Defined.

Lemma getUTagData_sentinels_witness :
  0 <= numTags
         (model_of (double := Z) (Event := unit)
            1 1 (Arr [Addr 1; Addr 2; Addr 3]) false
            {[ "a"%string := 0 ]} (Arr [Addr 4]) [] Wild Unset)
  /\ getUTagData
       (model_of (double := Z) (Event := unit)
          1 1 (Arr [Addr 1; Addr 2; Addr 3]) false
          {[ "a"%string := 0 ]} (Arr [Addr 4]) [] Wild Unset) TagALL
     = Ret (Addr 1)
  /\ getUTagData
       (model_of (double := Z) (Event := unit)
          1 1 (Arr [Addr 1; Addr 2; Addr 3]) false
          {[ "a"%string := 0 ]} (Arr [Addr 4]) [] Wild Unset) TagStart
     = Ret (Addr 2).
Proof.
  split; [cbn; lia |].
  apply (proj2 (proj2 (proj2 (proj2 (getUTagData_sentinels
    (model_of (double := Z) (Event := unit)
       1 1 (Arr [Addr 1; Addr 2; Addr 3]) false
       {[ "a"%string := 0 ]} (Arr [Addr 4]) [] Wild Unset)))))
    [Addr 1; Addr 2; Addr 3]); reflexivity.
Defined.

Lemma getUTagData_folding_witness :
  uniqueTags
    (model_of (double := Z) (Event := unit)
       1 1 (Arr [Addr 1; Addr 2; Addr 3]) false
       {[ "a"%string := 0 ]} (Arr [Addr 4]) [] Wild Unset) = false
  /\ 0 <= 0 < NumUTags
               (model_of (double := Z) (Event := unit)
                  1 1 (Arr [Addr 1; Addr 2; Addr 3]) false
                  {[ "a"%string := 0 ]} (Arr [Addr 4]) [] Wild Unset)
  /\ utagList_sized
       (model_of (double := Z) (Event := unit)
          1 1 (Arr [Addr 1; Addr 2; Addr 3]) false
          {[ "a"%string := 0 ]} (Arr [Addr 4]) [] Wild Unset) [Addr 4]
  /\ DataModel_dtor
       (model_of (double := Z) (Event := unit)
          1 1 (Arr [Addr 1; Addr 2; Addr 3]) false
          {[ "a"%string := 0 ]} (Arr [Addr 4]) [] Wild Unset)
       (list_to_map
          [(1%positive,
            mk_tagData 1 "" (Arr [localeData_ctor 0])
              (Arr [Arr [commData_ctor]]) 0 0 0 0 0 0 Unset);
           (2%positive,
            mk_tagData 1 "" (Arr [localeData_ctor 0])
              (Arr [Arr [commData_ctor]]) 0 0 0 0 0 0 Unset);
           (3%positive,
            mk_tagData 1 "" (Arr [localeData_ctor 0])
              (Arr [Arr [commData_ctor]]) 0 0 0 0 0 0 Unset);
           (4%positive,
            mk_tagData 1 "" (Arr [localeData_ctor 0])
              (Arr [Arr [commData_ctor]]) 0 0 0 0 0 0 Unset)])
     = Ret ∅
  /\ getUTagData
       (model_of (double := Z) (Event := unit)
          1 1 (Arr [Addr 1; Addr 2; Addr 3]) false
          {[ "a"%string := 0 ]} (Arr [Addr 4]) [] Wild Unset) 0
     = Ret (Addr 4)
  /\ forall t,
       getTagData
         (model_of (double := Z) (Event := unit)
            1 1 (Arr [Addr 1; Addr 2; Addr 3]) false
            {[ "a"%string := 0 ]} (Arr [Addr 4]) [] Wild Unset) t
       <> Ret (Addr 4).
Proof.
  assert (Hs : utagList_sized
    (model_of (double := Z) (Event := unit)
       1 1 (Arr [Addr 1; Addr 2; Addr 3]) false
       {[ "a"%string := 0 ]} (Arr [Addr 4]) [] Wild Unset) [Addr 4]).
  { unfold utagList_sized, INT_MAX. repeat split; vm_compute; congruence. }
  assert (Hn : 0 <= 0 < NumUTags
    (model_of (double := Z) (Event := unit)
       1 1 (Arr [Addr 1; Addr 2; Addr 3]) false
       {[ "a"%string := 0 ]} (Arr [Addr 4]) [] Wild Unset)).
  { vm_compute. split; congruence. }
  assert (Hd : DataModel_dtor
    (model_of (double := Z) (Event := unit)
       1 1 (Arr [Addr 1; Addr 2; Addr 3]) false
       {[ "a"%string := 0 ]} (Arr [Addr 4]) [] Wild Unset)
    (list_to_map
       [(1%positive,
         mk_tagData 1 "" (Arr [localeData_ctor 0])
           (Arr [Arr [commData_ctor]]) 0 0 0 0 0 0 Unset);
        (2%positive,
         mk_tagData 1 "" (Arr [localeData_ctor 0])
           (Arr [Arr [commData_ctor]]) 0 0 0 0 0 0 Unset);
        (3%positive,
         mk_tagData 1 "" (Arr [localeData_ctor 0])
           (Arr [Arr [commData_ctor]]) 0 0 0 0 0 0 Unset);
        (4%positive,
         mk_tagData 1 "" (Arr [localeData_ctor 0])
           (Arr [Arr [commData_ctor]]) 0 0 0 0 0 0 Unset)])
    = Ret ∅).
  { vm_compute. reflexivity. }
  split; [reflexivity |]. split; [exact Hn |]. split; [exact Hs |].
  split; [exact Hd |].
  pose proof (fun Hu => proj2 (getUTagData_folding _ 0) Hu Hn _ Hs) as Hf.
  destruct (Hf eq_refl) as (p & Hp & Hget & _ & Hsep).
  assert (Hp4 : p = Addr 4).
  { cbn in Hp. symmetry. by injection Hp. }
  split; [by rewrite <- Hp4 |].
  intros t. exact (Hsep _ _ 4%positive t Hd Hp4).
Defined.

Lemma NumUTags_counts_entries_witness :
  uniqueTags
    (model_of (double := Z) (Event := unit)
       1 3 (Arr [Addr 1; Addr 2; Addr 3; Addr 4; Addr 5]) false
       {[ "a"%string := 0; "b"%string := 1 ]} (Arr [Addr 6; Addr 7])
       [] Wild Unset) = false
  /\ Z.of_nat (size ({[ "a"%string := 0; "b"%string := 1 ]} : gmap string Z))
     <= INT_MAX
  /\ NumUTags
       (model_of (double := Z) (Event := unit)
          1 3 (Arr [Addr 1; Addr 2; Addr 3; Addr 4; Addr 5]) false
          {[ "a"%string := 0; "b"%string := 1 ]} (Arr [Addr 6; Addr 7])
          [] Wild Unset) = 2
  /\ Z.of_nat (length [0; 1]) = 2.
Proof.
  assert (Hmax : Z.of_nat
    (size ({[ "a"%string := 0; "b"%string := 1 ]} : gmap string Z))
    <= INT_MAX).
  { vm_compute. congruence. }
  split; [reflexivity |]. split; [exact Hmax |].
  split; [reflexivity |].
  pose proof (fun Hu => NumUTags_counts_entries
    (model_of (double := Z) (Event := unit)
       1 3 (Arr [Addr 1; Addr 2; Addr 3; Addr 4; Addr 5]) false
       {[ "a"%string := 0; "b"%string := 1 ]} (Arr [Addr 6; Addr 7])
       [] Wild Unset) Hu Hmax) as Hthm.
  destruct (Hthm eq_refl) as (_ & Hiff & Hcount & _).
  rewrite (Hcount [0; 1]); [reflexivity | |].
  - repeat constructor; rewrite ?elem_of_cons, ?elem_of_nil; lia.
  - intros i. rewrite Hiff, !elem_of_cons, elem_of_nil.
    change (NumUTags _) with 2. lia.
Defined.

Lemma start_clock_first_event_witness :
  theEvents
    (model_of (double := Z) (Event := Z * Z * Z)
       2 0 (Arr [Addr 1; Addr 2]) true ∅ Null
       [(7, 0, 0); (7, 1, 0); (9, 0, 1)] Wild Unset) <> []
  /\ exists e,
       head (theEvents
               (model_of (double := Z) (Event := Z * Z * Z)
                  2 0 (Arr [Addr 1; Addr 2]) true ∅ Null
                  [(7, 0, 0); (7, 1, 0); (9, 0, 1)] Wild Unset)) = Some e
       /\ start_clock (fun e : Z * Z * Z => e.1.1)
            (model_of 2 0 (Arr [Addr 1; Addr 2]) true ∅ Null
               [(7, 0, 0); (7, 1, 0); (9, 0, 1)] Wild Unset)
          = Ret (e.1.1).
Proof.
  split; [discriminate |].
  apply (start_clock_first_event (fun e : Z * Z * Z => e.1.1)).
  discriminate.
Defined.

Lemma fileName_resolves_witness :
  fileTblSize
    (model_of (double := Z) (Event := unit)
       1 0 (Arr [Addr 1; Addr 2]) true ∅ Null []
       (Arr [mk_filename "a.chpl" false; mk_filename "modules/b.chpl" true])
       (Val 2)) = Val 2
  /\ fileName
       (model_of (double := Z) (Event := unit)
          1 0 (Arr [Addr 1; Addr 2]) true ∅ Null []
          (Arr [mk_filename "a.chpl" false; mk_filename "modules/b.chpl" true])
          (Val 2)) 2 = Ret "<unknown>"%string
  /\ exists f,
       [mk_filename "a.chpl" false; mk_filename "modules/b.chpl" true]
         !! Z.to_nat 1 = Some f
       /\ fileName
            (model_of (double := Z) (Event := unit)
               1 0 (Arr [Addr 1; Addr 2]) true ∅ Null []
               (Arr [mk_filename "a.chpl" false;
                     mk_filename "modules/b.chpl" true])
               (Val 2)) 1 = Ret (name f)
       /\ fileIsRel2Home
            (model_of (double := Z) (Event := unit)
               1 0 (Arr [Addr 1; Addr 2]) true ∅ Null []
               (Arr [mk_filename "a.chpl" false;
                     mk_filename "modules/b.chpl" true])
               (Val 2)) 1 = Ret (rel2Home f).
Proof.
  split; [reflexivity |].
  split.
  - apply (fileName_resolves
      (model_of (double := Z) (Event := unit)
         1 0 (Arr [Addr 1; Addr 2]) true ∅ Null []
         (Arr [mk_filename "a.chpl" false; mk_filename "modules/b.chpl" true])
         (Val 2)) 2 2 eq_refl). lia.
  - apply (proj2 (fileName_resolves
      (model_of (double := Z) (Event := unit)
         1 0 (Arr [Addr 1; Addr 2]) true ∅ Null []
         (Arr [mk_filename "a.chpl" false; mk_filename "modules/b.chpl" true])
         (Val 2)) 1 2 eq_refl) _ eq_refl eq_refl). lia.
Defined.

(** Two locales, a tag "compute" between times 1 and 5; an event is
    (clock, locale, sequence number). *)
Lemma LoadData_tag_array_witness :
  exists m' h',
    LoadData (double := Z) (Event := Z * Z * Z) 0
      (fun e => e.1.1) (fun e => e.1.2) (fun e => e.2) Z.ltb
      (fun _ => Some ["compute"%string])
      (fun _ => ([mk_filename "ra.chpl" false], []))
      (fun names => (false, {[ "compute"%string := 0 ]}))
      DataModel_ctor ∅
      {[ 0 := mk_TraceFile 2 [Some (0, 0, 0); Some (1, 0, 1); Some (5, 0, 2)];
         1 := mk_TraceFile 2 [Some (0, 1, 0); Some (1, 1, 1); Some (5, 1, 2)] ]}
    = (1, m', h')
    /\ numTags m' = 1
    /\ DataModel_dtor m' h' = Ret ∅
    /\ exists tl,
         tagList m' = Arr tl
         /\ 0 <= numTags m'
         /\ Z.of_nat (length tl) = numTags m' + 2
         /\ (forall p, p ∈ tl ->
               exists a td, p = Addr a /\ h' !! a = Some td
                 /\ tagData_ctor 0 (numLocales m') = Ret td)
         /\ (exists p0 p1,
               tl !! 0%nat = Some p0 /\ tl !! 1%nat = Some p1
               /\ getTagData m' TagALL = Ret p0
               /\ getTagData m' TagStart = Ret p1)
         /\ (forall t, TagALL <= t < numTags m' ->
               exists p,
                 tl !! Z.to_nat (t - TagALL) = Some p
                 /\ (numTags m' + 2 <= INT_MAX -> getTagData m' t = Ret p)).
Proof.
  match goal with
  | |- exists m' h', ?L = _ /\ _ => destruct L as [[r m'] h'] eqn:E
  end.
  pose proof E as E'. vm_compute in E'. injection E' as <- <- <-.
  eexists _, _. split; [reflexivity |]. split; [reflexivity |].
  split; [vm_compute; reflexivity |].
  exact (LoadData_tag_array _ _ _ _ _ _ _ _ _ _ _ _ _ E).
Defined.

Lemma load_order_deterministic_witness :
  (forall x y, Z.ltb x y = true -> Z.ltb y x = false)
  /\ (forall x y z, Z.ltb x z = true -> Z.ltb x y = true \/ Z.ltb y z = true)
  /\ exists m' h',
       LoadData (double := Z) (Event := Z * Z * Z) 0
         (fun e => e.1.1) (fun e => e.1.2) (fun e => e.2) Z.ltb
         (fun _ => Some ["compute"%string])
         (fun _ => ([mk_filename "ra.chpl" false], []))
         (fun names => (false, {[ "compute"%string := 0 ]}))
         DataModel_ctor ∅
         {[ 0 := mk_TraceFile 2 [Some (0, 0, 0); Some (1, 0, 1); Some (5, 0, 2)];
            1 := mk_TraceFile 2 [Some (0, 1, 0); Some (1, 1, 1); Some (5, 1, 2)] ]}
       = (1, m', h')
       /\ theEvents m'
          = [(0, 0, 0); (0, 1, 0); (1, 0, 1); (1, 1, 1); (5, 0, 2); (5, 1, 2)]
       /\ StronglySorted
            (event_ord (fun e => e.1.1) (fun e => e.1.2) (fun e => e.2) Z.ltb)
            (theEvents m').
Proof.
  assert (Hasym : forall x y, Z.ltb x y = true -> Z.ltb y x = false).
  { intros x y H. apply Z.ltb_lt in H. apply Z.ltb_ge. lia. }
  assert (Hneg : forall x y z,
            Z.ltb x z = true -> Z.ltb x y = true \/ Z.ltb y z = true).
  { intros x y z H. apply Z.ltb_lt in H. rewrite !Z.ltb_lt. lia. }
  split; [exact Hasym |]. split; [exact Hneg |].
  match goal with
  | |- exists m' h', ?L = _ /\ _ => destruct L as [[r m'] h'] eqn:E
  end.
  pose proof E as E'. vm_compute in E'. injection E' as <- <- <-.
  eexists _, _. split; [reflexivity |]. split; [reflexivity |].
  exact (proj1 (proj2 (proj1
    (load_order_deterministic _ _ _ _ _ _ _ _ Hasym Hneg _ _ _) _ _ E))).
Defined.

(** * Instances of the further properties *)

Lemma tagData_ctor_locales_witness :
  exists td : @tagData Z unit,
    tagData_ctor 0 2 = Ret td
    /\ td_name td = ""%string
    /\ exists ls, locales td = Arr ls /\ Z.of_nat (length ls) = 2.
Proof.
  destruct (tagData_ctor (Event := unit) 0 2) as [td | f] eqn:E;
    [| vm_compute in E; discriminate].
  exists td. split; [reflexivity |].
  destruct (tagData_ctor_locales 0 2 td E)
    as (Hname & _ & _ & _ & _ & _ & _ & ls & Hls & Hlen & _).
  split; [exact Hname |]. exists ls. split; [exact Hls | exact Hlen].
Defined.

Lemma tagData_ctor_dtor_witness :
  exists td : @tagData Z unit,
    tagData_ctor 0 2 = Ret td /\ tagData_dtor td = Ret tt.
Proof.
  destruct (tagData_ctor (Event := unit) 0 2) as [td | f] eqn:E;
    [| vm_compute in E; discriminate].
  exists td. split; [reflexivity |].
  exact (tagData_ctor_dtor 0 2 td E).
Defined.

Lemma tagData_ctor_failures_witness :
  -1 < 0 /\ INT_MAX < 2 ^ 31
  /\ tagData_ctor (double := Z) (Event := unit) 0 (-1) = Fault BadArrayNew
  /\ tagData_ctor (double := Z) (Event := unit) 0 (2 ^ 31) = Fault Overflow.
Proof.
  assert (H1 : -1 < 0) by lia.
  assert (H2 : INT_MAX < 2 ^ 31) by (unfold INT_MAX; lia).
  split; [exact H1 |]. split; [exact H2 |].
  split.
  - exact (proj1 (tagData_ctor_failures 0 (-1)) H1).
  - exact (proj2 (tagData_ctor_failures 0 (2 ^ 31)) H2).
Defined.

Lemma tagData_dtor_destructible_witness :
  tagData_dtor (sample_entry (double := Z) (Event := unit) 0) = Ret tt
  /\ tagData_destructible (sample_entry (double := Z) (Event := unit) 0).
Proof.
  assert (Hd : tagData_dtor (sample_entry (double := Z) (Event := unit) 0)
               = Ret tt) by (vm_compute; reflexivity).
  split; [exact Hd |].
  exact (proj1 (tagData_dtor_destructible _) Hd).
Defined.

Lemma DataModel_dtor_returns_iff_witness :
  DataModel_dtor (double := Z) (Event := unit) sample_model (sample_store 0)
  = Ret {[ 5%positive := sample_entry 0 ]}
  /\ dtor_shape (double := Z) (Event := unit) sample_model
  /\ NoDup (addrs (dtor_ptrs (double := Z) (Event := unit) sample_model)).
Proof.
  assert (Hd : DataModel_dtor (double := Z) (Event := unit)
                 sample_model (sample_store 0)
               = Ret {[ 5%positive := sample_entry 0 ]}).
  { vm_compute. reflexivity. }
  split; [exact Hd |].
  destruct (proj1 (DataModel_dtor_returns_iff _ _) (ex_intro _ _ Hd))
    as (Hshape & Hnd & _).
  split; [exact Hshape | exact Hnd].
Defined.

Lemma DataModel_dtor_frees_witness :
  exists h',
    DataModel_dtor (double := Z) (Event := unit) sample_model (sample_store 0)
    = Ret h'
    /\ h' !! 5%positive = Some (sample_entry 0)
    /\ h' ⊆ sample_store 0.
Proof.
  destruct (DataModel_dtor (double := Z) (Event := unit)
              sample_model (sample_store 0)) as [h' | f] eqn:E;
    [| vm_compute in E; discriminate].
  exists h'. split; [reflexivity |].
  destruct (DataModel_dtor_frees _ _ _ E) as (_ & Hsub & Hkeep).
  split; [| exact Hsub].
  apply Hkeep; [vm_compute; reflexivity |].
  vm_compute. intros Hin.
  repeat (apply elem_of_cons in Hin as [Hin | Hin]; [discriminate |]).
  by apply elem_of_nil in Hin.
Defined.

Lemma accessors_return_owned_witness :
  exists h',
    DataModel_dtor (double := Z) (Event := unit) sample_model (sample_store 0)
    = Ret h'
    /\ 0 <= numTags (double := Z) (Event := unit) sample_model
    /\ getUTagData (double := Z) (Event := unit) sample_model 0
       = Ret (Addr 4)
    /\ is_Some (sample_store (double := Z) (Event := unit) 0 !! 4%positive)
    /\ h' !! 4%positive = None.
Proof.
  destruct (DataModel_dtor (double := Z) (Event := unit)
              sample_model (sample_store 0)) as [h' | f] eqn:E;
    [| vm_compute in E; discriminate].
  assert (H0 : 0 <= numTags (double := Z) (Event := unit) sample_model).
  { vm_compute. discriminate. }
  assert (Hg : getUTagData (double := Z) (Event := unit) sample_model 0
               = Ret (Addr 4)) by reflexivity.
  exists h'. split; [reflexivity |]. split; [exact H0 |].
  split; [exact Hg |].
  exact (accessors_return_owned _ _ _ 0 4%positive E H0 (or_intror Hg)).
Defined.

Lemma getTagData_image_witness :
  tagList_sized (double := Z) (Event := unit) sample_model
    [Addr 1; Addr 2; Addr 3]
  /\ exists t,
       getTagData (double := Z) (Event := unit) sample_model t
       = Ret (Addr 3).
Proof.
  assert (Hs : tagList_sized (double := Z) (Event := unit) sample_model
                 [Addr 1; Addr 2; Addr 3]).
  { unfold tagList_sized, INT_MAX. cbn. repeat split; lia. }
  split; [exact Hs |].
  apply (proj2 (getTagData_image _ _ 3%positive Hs)).
  cbn [addrs]. apply elem_of_cons. right. apply elem_of_cons. right.
  apply elem_of_cons. by left.
Defined.

Lemma getTagData_overflow_witness :
  INT_MIN <= INT_MAX - 1 <= INT_MAX
  /\ INT_MIN <= numTags
                  (model_of (double := Z) (Event := unit)
                     1 INT_MAX Null true ∅ Null [] Wild Unset) <= INT_MAX
  /\ getTagData
       (model_of (double := Z) (Event := unit)
          1 INT_MAX Null true ∅ Null [] Wild Unset) (INT_MAX - 1)
     = Fault Overflow.
Proof.
  assert (H1 : INT_MIN <= INT_MAX - 1 <= INT_MAX).
  { unfold INT_MIN, INT_MAX. lia. }
  assert (H2 : INT_MIN <= numTags
                  (model_of (double := Z) (Event := unit)
                     1 INT_MAX Null true ∅ Null [] Wild Unset) <= INT_MAX).
  { cbn [numTags model_of]. unfold INT_MIN, INT_MAX. lia. }
  split; [exact H1 |]. split; [exact H2 |].
  apply (proj2 (getTagData_overflow _ _ H1 H2)). split; reflexivity.
Defined.

Lemma getUTagData_fault_free_witness :
  tagList (double := Z) (Event := unit) sample_model
  = Arr [Addr 1; Addr 2; Addr 3]
  /\ (2 <= length [Addr 1; Addr 2; Addr 3])%nat
  /\ utagList_sized (double := Z) (Event := unit) sample_model [Addr 4]
  /\ exists p,
       getUTagData (double := Z) (Event := unit) sample_model 7 = Ret p.
Proof.
  assert (Hs : utagList_sized (double := Z) (Event := unit) sample_model
                 [Addr 4]).
  { unfold utagList_sized, INT_MAX. repeat split; vm_compute; congruence. }
  assert (Hl : (2 <= length [Addr 1; Addr 2; Addr 3])%nat) by (cbn; lia).
  split; [reflexivity |]. split; [exact Hl |]. split; [exact Hs |].
  exact (getUTagData_fault_free
           (sample_model (double := Z) (Event := unit))
           [Addr 1; Addr 2; Addr 3] 7 eq_refl Hl
           (or_intror (ex_intro _ _ Hs))).
Defined.
